(** * Al-Faraheedy: the Arabic prosody analyser of [src/main.py]

    A shallow embedding of [ArabicPoetryAnalyzer] and the properties its
    specification states about it.

    Python strings are sequences of Unicode code points; they are modelled
    as [list N].  The literals of the source are kept as they are written
    there (UTF-8 string literals) and decoded by [u8]; the regular
    expressions of the source are parsed by [Re.parse] from the same
    literals, and run by a backtracking matcher with the priorities of
    Python's [re] module. *)

From Stdlib Require Import String Ascii NArith List Bool Arith Lia.
From stdpp Require Import base list.
Import ListNotations.

Set Default Proof Using "Type".
Local Open Scope list_scope.

(** ** Code points and Python strings *)

Abbreviation cp := N.
Abbreviation str := (list cp).

Module Utf8.

Local Open Scope N_scope.

Definition bytes (s : string) : list N :=
  List.map N_of_ascii (list_ascii_of_string s).

(** One to four byte sequences; a truncated sequence ends the text. *)
Fixpoint decode (bs : list N) : str :=
  match bs with
  | [] => []
  | b :: r =>
    if b <? 128 then b :: decode r
    else if b <? 224 then
      match r with
      | b1 :: r1 => ((b - 192) * 64 + (b1 - 128)) :: decode r1
      | _ => []
      end
    else if b <? 240 then
      match r with
      | b1 :: b2 :: r2 =>
        ((b - 224) * 4096 + (b1 - 128) * 64 + (b2 - 128)) :: decode r2
      | _ => []
      end
    else
      match r with
      | b1 :: b2 :: b3 :: r3 =>
        ((b - 240) * 262144 + (b1 - 128) * 4096 + (b2 - 128) * 64
         + (b3 - 128)) :: decode r3
      | _ => []
      end
  end.

End Utf8.

(** [u8 "..."] is the Python string written with the same literal. *)
Definition u8 (s : string) : str := Utf8.decode (Utf8.bytes s).

Definition str_eqb (a b : str) : bool := bool_decide (a = b).

(** [x in xs] for a Python list of strings. *)
Definition str_in (x : str) (xs : list str) : bool :=
  existsb (str_eqb x) xs.

Definition cp_in (c : cp) (cs : list cp) : bool := existsb (N.eqb c) cs.

Module Py.

Local Open Scope N_scope.

(** [s.startswith(p)], returning what follows the prefix. *)
Fixpoint strip_prefix (p s : str) : option str :=
  match p, s with
  | [], _ => Some s
  | a :: p', b :: s' => if a =? b then strip_prefix p' s' else None
  | _ :: _, [] => None
  end.

Definition startswith (s p : str) : bool :=
  match strip_prefix p s with Some _ => true | None => false end.

Definition endswith (s p : str) : bool := startswith (rev s) (rev p).

(** [s.replace(old, new)] for a non-empty [old]: occurrences are found
    from the left and do not overlap.  [skip] counts the code points of
    an occurrence that are still to be passed over. *)
Fixpoint replace_from (old new : str) (skip : nat) (s : str) : str :=
  match s with
  | [] => []
  | c :: s' =>
    match skip with
    | S n => replace_from old new n s'
    | O =>
      if startswith s old
      then new ++ replace_from old new (Nat.pred (length old)) s'
      else c :: replace_from old new O s'
    end
  end.

Definition replace (s old new : str) : str :=
  match old with
  | [] => s
  | _ => replace_from old new O s
  end.

(** [s[i:j]] for [0 <= i <= j]. *)
Definition slice (s : str) (i j : nat) : str := take (j - i) (drop i s).

(** [''.join(xs)]. *)
Definition join (xs : list str) : str := concat xs.

End Py.

(** ** Errors

    The exceptions a Python run can end with. *)

Inductive exn := IndexError | RecursionError | UnboundLocalError.

Inductive result (A : Type) :=
| Ok (a : A)
| Raise (e : exn).
Arguments Ok {A} a.
Arguments Raise {A} e.

Definition rbind {A B} (m : result A) (f : A -> result B) : result B :=
  match m with
  | Ok a => f a
  | Raise e => Raise e
  end.

Notation "'let*' x ':=' m 'in' k" := (rbind m (fun x => k))
  (at level 10, x name, m at level 100, k at level 200).

(** [xs[i]] for [0 <= i]. *)
Definition index {A} (xs : list A) (i : nat) : result A :=
  match xs !! i with
  | Some x => Ok x
  | None => Raise IndexError
  end.

(** [xs[-i]] for [1 <= i]. *)
Definition index_back {A} (xs : list A) (i : nat) : result A :=
  if (i <=? length xs)%nat then index xs (length xs - i) else Raise IndexError.

(** ** Regular expressions

    The fragment of Python's [re] syntax that the source uses: literal
    code points, classes [[...]] without ranges, capturing groups,
    alternation, [*], [+] and [{n,}] on a single code point or class, and
    [{n}] on any atom. *)

Module Re.

Local Open Scope N_scope.

Inductive regex :=
| Eps
| Chr (c : cp)
| Cls (cs : list cp)
| Rep (cs : list cp) (lo : nat)
| Cat (r1 r2 : regex)
| Alt (r1 r2 : regex)
| Grp (i : nat) (r : regex).

(** *** Parsing a pattern *)

Definition cat (a b : regex) : regex :=
  match b with Eps => a | _ => Cat a b end.

Fixpoint times (n : nat) (a : regex) : regex :=
  match n with
  | O => Eps
  | S O => a
  | S n' => Cat a (times n' a)
  end.

Definition is_digit (c : cp) : bool := (48 <=? c) && (c <=? 57).

Fixpoint number (acc : nat) (s : str) : nat * str :=
  match s with
  | c :: s' =>
    if is_digit c then number (10 * acc + N.to_nat (c - 48)) s'
    else (acc, s)
  | [] => (acc, s)
  end.

(** Code points with a meaning of their own in a pattern. *)
Definition special : list cp := u8 "\.^$?*+{}[]()|".

(** The members of a class, up to its closing bracket.  A backslash, a
    negation and a range are outside the fragment. *)
Fixpoint class_body (first : bool) (s : str) : option (list cp * str) :=
  match s with
  | [] => None
  | c :: s' =>
    if c =? 93 then Some ([], s')
    else if (c =? 92) || (first && (c =? 94)) then None
    else if (c =? 45) && negb first
              && match s' with x :: _ => negb (x =? 93) | [] => true end
    then None
    else match class_body false s' with
         | Some (cs, r) => Some (c :: cs, r)
         | None => None
         end
  end.

Definition as_class (a : regex) : option (list cp) :=
  match a with
  | Chr c => Some [c]
  | Cls cs => Some cs
  | _ => None
  end.

(** The quantifier that follows an atom, if there is one. *)
Definition quantified (a : regex) (s : str) : option (regex * str) :=
  match s with
  | 42 :: s' =>
    match as_class a with Some cs => Some (Rep cs 0, s') | None => None end
  | 43 :: s' =>
    match as_class a with Some cs => Some (Rep cs 1, s') | None => None end
  | 63 :: _ => None
  | 123 :: s' =>
    match number 0 s' with
    | (n, 125 :: s2) => Some (times n a, s2)
    | (n, 44 :: 125 :: s2) =>
      match as_class a with Some cs => Some (Rep cs n, s2) | None => None end
    | _ => None
    end
  | _ => Some (a, s)
  end.

(** Recursive descent; the groups are numbered by their opening
    parenthesis, from [n] on. *)
Fixpoint p_alt (fuel : nat) (s : str) (n : nat)
  : option (regex * str * nat) :=
  match fuel with
  | O => None
  | S f =>
    match p_seq f s n with
    | Some (r1, 124 :: s1, n1) =>
      match p_alt f s1 n1 with
      | Some (r2, s2, n2) => Some (Alt r1 r2, s2, n2)
      | None => None
      end
    | other => other
    end
  end
with p_seq (fuel : nat) (s : str) (n : nat)
  : option (regex * str * nat) :=
  match fuel with
  | O => None
  | S f =>
    match s with
    | [] => Some (Eps, s, n)
    | c :: _ =>
      if (c =? 41) || (c =? 124) then Some (Eps, s, n)
      else
        match p_atom f s n with
        | Some (a, s1, n1) =>
          match quantified a s1 with
          | Some (a', s2) =>
            match p_seq f s2 n1 with
            | Some (r, s3, n3) => Some (cat a' r, s3, n3)
            | None => None
            end
          | None => None
          end
        | None => None
        end
    end
  end
with p_atom (fuel : nat) (s : str) (n : nat)
  : option (regex * str * nat) :=
  match fuel with
  | O => None
  | S f =>
    match s with
    | [] => None
    | c :: s1 =>
      if c =? 40 then
        match p_alt f s1 (S n) with
        | Some (r, 41 :: s2, n2) => Some (Grp n r, s2, n2)
        | _ => None
        end
      else if c =? 91 then
        match class_body true s1 with
        | Some (cs, s2) => Some (Cls cs, s2, n)
        | None => None
        end
      else if cp_in c special then None
      else Some (Chr c, s1, n)
    end
  end.

(** A compiled pattern: its expression and the number of its groups. *)
Record pattern := Pattern { expr : regex; groups : nat }.

Definition parse (p : str) : option pattern :=
  match p_alt (3 * length p + 3) p 1 with
  | Some (r, [], n) => Some (Pattern r (Nat.pred n))
  | _ => None
  end.

(** [re.compile] on a literal of the source.  A pattern outside the
    fragment compiles to one that matches nothing; [compiled] tells. *)
Definition compile (p : string) : pattern :=
  match parse (u8 p) with
  | Some c => c
  | None => Pattern (Cls []) 0
  end.

Definition compiled (p : string) : bool :=
  match parse (u8 p) with Some _ => true | None => false end.

(** *** Matching *)

(** What each group captured last. *)
Definition caps := list (nat * str).

Fixpoint cap (g : caps) (i : nat) : str :=
  match g with
  | [] => []
  | (j, w) :: g' => if (i =? j)%nat then w else cap g' i
  end.

(** The length of the longest prefix of [s] inside the class. *)
Fixpoint class_run (cs : list cp) (s : str) : nat :=
  match s with
  | c :: s' => if cp_in c cs then S (class_run cs s') else O
  | [] => O
  end.

Section Run.
Context {A : Type}.

(** A greedy repetition gives back one code point at a time. *)
Fixpoint back_off (k : nat -> option A) (lo d : nat) : option A :=
  match k (lo + d)%nat with
  | Some a => Some a
  | None =>
    match d with
    | O => None
    | S d' => back_off k lo d'
    end
  end.

(** [run r s g k]: match [r] at the head of [s], then go on with [k]
    on what is left; the first success in Python's order is the
    answer (left alternative first, longest repetition first). *)
Fixpoint run (r : regex) (s : str) (g : caps)
         (k : str -> caps -> option A) : option A :=
  match r with
  | Eps => k s g
  | Chr c =>
    match s with
    | x :: s' => if x =? c then k s' g else None
    | [] => None
    end
  | Cls cs =>
    match s with
    | x :: s' => if cp_in x cs then k s' g else None
    | [] => None
    end
  | Rep cs lo =>
    let n := class_run cs s in
    if (lo <=? n)%nat
    then back_off (fun j => k (drop j s) g) lo (n - lo)
    else None
  | Cat r1 r2 => run r1 s g (fun s' g' => run r2 s' g' k)
  | Alt r1 r2 =>
    match run r1 s g k with
    | Some a => Some a
    | None => run r2 s g k
    end
  | Grp i r1 =>
    run r1 s g
        (fun s' g' => k s' ((i, take (length s - length s') s) :: g'))
  end.
End Run.

(** The match that starts at the head of [s]: what follows it, and the
    captures. *)
Definition match_at (p : pattern) (s : str) : option (str * caps) :=
  run (expr p) s [] (fun s' g => Some (s', g)).

(** [re.match(p, s)] as a truth value. *)
Definition re_match (p : pattern) (s : str) : bool :=
  match match_at p s with Some _ => true | None => false end.

(** *** Substitution, splitting, finding

    The scans go from the left and the matches do not overlap.  No
    pattern of the source matches the empty string; a match of length
    zero is passed over. *)

Inductive titem := TLit (c : cp) | TRef (i : nat).

(** A replacement template: [\1] ... [\9] refer to groups. *)
Fixpoint template (t : str) : list titem :=
  match t with
  | [] => []
  | c :: t' =>
    match t' with
    | d :: t2 =>
      if (c =? 92) && (49 <=? d) && (d <=? 57)
      then TRef (N.to_nat (d - 48)) :: match template t' with
                                        | _ :: r => r
                                        | [] => []
                                        end
      else TLit c :: template t'
    | [] => [TLit c]
    end
  end.

Definition expand (t : list titem) (g : caps) : str :=
  flat_map (fun it => match it with TLit c => [c] | TRef i => cap g i end) t.

Fixpoint sub_from (p : pattern) (t : list titem) (skip : nat) (s : str)
  : str :=
  match s with
  | [] => []
  | c :: s' =>
    match skip with
    | S n => sub_from p t n s'
    | O =>
      match match_at p s with
      | Some (rest, g) =>
        match (length s - length rest)%nat with
        | S n => expand t g ++ sub_from p t n s'
        | O => c :: sub_from p t O s'
        end
      | None => c :: sub_from p t O s'
      end
    end
  end.

(** [re.sub(p, repl, s)]. *)
Definition sub (p : pattern) (repl : str) (s : str) : str :=
  sub_from p (template repl) O s.

Fixpoint split_from (p : pattern) (skip : nat) (piece : str) (s : str)
  : list str :=
  match s with
  | [] => [rev piece]
  | c :: s' =>
    match skip with
    | S n => split_from p n piece s'
    | O =>
      match match_at p s with
      | Some (rest, g) =>
        match (length s - length rest)%nat with
        | S n =>
          rev piece :: List.map (cap g) (seq 1 (groups p))
              ++ split_from p n [] s'
        | O => split_from p O (c :: piece) s'
        end
      | None => split_from p O (c :: piece) s'
      end
    end
  end.

(** [re.split(p, s)]: the pieces, with the captures of each separator
    between them. *)
Definition split (p : pattern) (s : str) : list str := split_from p O [] s.

Fixpoint findall_from (p : pattern) (skip : nat) (s : str) : list str :=
  match s with
  | [] => []
  | c :: s' =>
    match skip with
    | S n => findall_from p n s'
    | O =>
      match match_at p s with
      | Some (rest, g) =>
        match (length s - length rest)%nat with
        | S n =>
          (match groups p with
           | O => take (S n) s
           | _ => cap g 1
           end) :: findall_from p n s'
        | O => findall_from p O s'
        end
      | None => findall_from p O s'
      end
    end
  end.

(** [re.findall(p, s)] for a pattern with at most one group: the text of
    each match, or what its group captured. *)
Definition findall (p : pattern) (s : str) : list str := findall_from p O s.

End Re.

(** ** The analyser *)

Module Analyzer.

Local Open Scope string_scope.
Local Open Scope list_scope.
Local Open Scope N_scope.

Definition ALPHABET : list str := List.map u8
  [ "ا"; "أ"; "إ"; "آ"; "ء"; "ئ"; "ؤ"; "ى"; "ب"; "ت"; "ة"; "ث"; "ج"; "ح"; "خ";
    "د"; "ذ"; "ر"; "ز"; "ش"; "س"; "ص"; "ض"; "ط"; "ظ"; "ع"; "غ"; "ف"; "ق"; "ك";
    "ل"; "م"; "ن"; "ه"; "و"; "ي"; "#" ].

Definition HARAKAT : list str := List.map u8
  [ "ّ"; "َ"; "ُ"; "ِ"; "ً"; "ٌ"; "ٍ"; "ْ" ].

Definition METER_PATTERNS : list (string * string) :=
  [ ("taweel", "%U-[-U]U---U-[U-]U(---|-U-|--)%");
    ("baseet", "%(--U-|U-U-)(-U-|UU-)--U-(-U-|UU-|--)%");
    ("madeed", "%[-U]U--[-U]U-(-U--|-U-U|-U-|UU-)%");
    ("kamel", "%(UU|-)-U-(UU|-)-U-(UU-U-|--U-|UU--|---)%");
    ("rajaz", "%(--U-|U-U-|-UU-|UUU-)(--U-|U-U-|-UU-|UUU-)(--U-|U-U-|-UU-|UUU-|---)%");
    ("ramal", "%(-U--|UU--|UU-U|-U-U)(-U--|UU--|UU-U|-U-U)(-U--|-U-|UU-|-U-U)%");
    ("saree3", "%(--U-|U-U-|-UU-|UUU-)(--U-|U-U-|-UU-|UUU-)(-U-|-U-U)%");
    ("khafeef", "%(-U--|UU--)(--U-|U-U-)(-U--|UU--|---|UU-)%");
    ("munsare7", "%(--U-|U-U-|-UU-|UUU-)(---U|-U-U|UU-U)(--U-|-UU-|---)%");
    ("wafer", "%(U-UU-|U---)(U-UU-|U---)(U--)%");
    ("o7othKamel", "%(UU-U-|--U-)(UU-U-|--U-)UU-%");
    ("mutakareb", "%(U--|U-U){3}(U--|U-U|U-)%");
    ("mutadarak", "%(-U-|UU-|--)(-U-|UU-|--)(-U-|UU-|--)(-U-|UU-|--)%");
    ("mu5alla3Baseet", "%(--U-|U-U-|-UU-)-U-U--%");
    ("majzoo2Baseet", "%(--U-|U-U-|-UU-|UUU-)(-U-|UU-)(--U-|---|--U-U)%");
    ("majzoo2Kamel", "%(UU-U-|--U-)(UU-U-|UU--|--U-|UU-U-U|UU-U--)%");
    ("majzoo2Ramal", "%(-U--|UU--)(-U--|UU--|-U--U|-U-)%");
    ("majzoo2Saree3", "%(--U-|U-U-|-UU-|UUU-)(-U-|-U-U)%");
    ("majzoo2khafeef", "%(-U--|UU--)(--U-|U-U-)%");
    ("majzoo2Munsare7", "%(--U-|U-U-|-UU-|UUU-)(---U|---)%");
    ("majzoo2Mutakareb", "%(U--|U-U){2}(U--|U-U|U-|-)%");
    ("majzoo2Mutadarak", "%(-U-|UU-|--){2}(-U-|-U-U|UU--)%");
    ("hazaj", "%(U---|U--U)(U---|U--U)%");
    ("majzoo2Wafer", "%(U-UU-|U---)(U-UU-|U---)%");
    ("majzoo2Rajaz", "%(--U-|U-U-|-UU-|UUU-)(--U-|U-U-|-UU-|UUU-|---|--U--)%");
    ("modare3", "%(U--U|U-U-)-U--%");
    ("moktadab", "%-U-U-UU-%");
    ("mojtath", "%(--U-|U-U-)(-U--|UU--|---)%");
    ("manhookRajaz", "%(--U-|U-U-|-UU-|UUU-|---)%") ].

Definition hash : str := u8 "#".

(** [chars[i] == x], false out of range. *)
Definition is_at (chars : list str) (i : nat) (x : string) : bool :=
  match chars !! i with
  | Some c => str_eqb c (u8 x)
  | None => false
  end.

(** [chars[i] = x], and [chars.pop(i)]. *)
Definition set_at (i : nat) (x : str) (chars : list str) : list str :=
  <[i := x]> chars.

Definition pop (i : nat) (chars : list str) : list str := delete i chars.

(** The [while] loop of [_str_to_chars]: two code points that are both
    not [#] make one element. *)
Fixpoint pair_up (text : str) : list str :=
  match text with
  | [] => []
  | a :: rest =>
    match rest with
    | b :: rest' =>
      if negb (a =? 35) && negb (b =? 35)
      then [a; b] :: pair_up rest'
      else [a] :: pair_up rest
    | [] => [[a]]
    end
  end.

Definition _str_to_chars (text : str) : list str :=
  pair_up (Py.replace text (u8 " ") (u8 "#")).

Definition punctuations : list str :=
  [ u8 "؟"; u8 "?"; u8 "/"; u8 "\"; u8 "!"; u8 ":"; u8 "-"; [34%N];
    u8 ")"; u8 "("; u8 ","; u8 "،" ].

Definition _clean_str (text : str) : str :=
  let text := if Py.startswith text hash then text else hash ++ text in
  let text := Re.sub (Re.compile " +") (u8 "#") text in
  let text := Re.sub (Re.compile "#+") (u8 "#") text in
  let text := fold_left (fun t p => Py.replace t p []) punctuations text in
  let chars := _str_to_chars text in
  let result :=
    List.filter (fun c => str_in c ALPHABET || str_in c HARAKAT) chars in
  let result :=
    if Py.endswith text hash then result else result ++ [hash] in
  Py.join result.

(** [for pattern, replacement in zip(patterns, replacements):
       text = re.sub(pattern, replacement, text)] *)
Definition apply_rules (rules : list (string * string)) (text : str) : str :=
  fold_left (fun t pr => Re.sub (Re.compile (fst pr)) (u8 (snd pr)) t)
            rules text.

Definition special_cases_rules : list (string * string) :=
  [
    ("و[َُِْ]*ا#", "وْ#");
    ("#عمرٍو#", "#عمْرٍ#");
    ("#عمروٍ#", "#عمْرٍ#");
    ("#عمرًو#", "#عمْرً#");
    ("#عمروً#", "#عمْرً#");
    ("#عمرٌو#", "#عمْرٌ#");
    ("#عمروٌ#", "#عمْرٌ#");
    ("#عمرو#", "#عمْر#");
    ("آ", "أا");
    ("ى#الله#", "لّاه#");
    ("تالله#", "تلّاه#");
    ("ا#الله#", "لّاه#");
    ("اللهُ#", "الْلاهُ#");
    ("اللهَ#", "الْلاهَ#");
    ("اللهِ#", "الْلاهِ#");
    ("الله#", "الْلاه#");
    ("للهِ#", "للْلاهِ#");
    ("لله#", "للْلاه#");
    ("#الل[َّ]*هم([َّ]*)#", "#الْلاهم\1#");
    ("#الإله([َُِْ]*)#", "#الإلاه\1#");
    ("#لل[ْ]*إله([َُِْ]*)#", "للْإلاه\1#");
    ("#إله([َُِْ]*)([يهمنا])([َُِْ]*)#", "#إلاه\1\2\3#");
    ("الر[َّ]*حمن([َُِْ]*)#", "الرَّحْمان\1#");
    ("للر[َّ]*حمن([َُِْ]*)#", "لِرَّحْمان\1#");
    ("#([فلكب]*)ه[َ]*ذ[َ]*ا[ْ]*#", "#\1هَاذَا#");
    ("#([فلكب]*)ه[َ]*ذ[ِ]*ه([َُِ]*)#", "#\1هَاذِه\2#");
    ("#([فلكب]*)ه[َُِ]*ؤ[َُِ]*ل[َِ]*ا[ْ]*ء([َُِْ]*)#", "#\1هَاؤُلَاء\2#");
    ("#([فلكب]*)ذ[َُِ]*ل[َُِ]*ك([َِ]*)#", "#\1ذَالِك\2#");
    ("#([فلكب]*)ه[َُِ]*ذ[َُِ]*ي([َِ]*)#", "#\1هَاذِي\2#");
    ("#([فلكب]*)ه[َُِ]*ذ[َِ]*ا[ْ]*ن([َُِْ]*)#", "#\1هَاذَان\2#");
    ("#([فلكب]*)ه[َُِ]*ذ[َِ]*ي[ْ]*ن([َُِْ]*)#", "#\1هَاذَيْن\2#");
    ("#([فلكب]*)ه[َُِ]*ه[َِ]*ن[ْ]*ا([َُِْ]*)#", "#\1هَاهُنَا#");
    ("#([فلكب]*)ه[َُِ]*ه[َِ]*ن[ْ]*ا[ْ]*ك([َُِْ]*)#", "#\1هَاهُنَاك\2#");
    ("#([فلكب]*)ه[َُِ]*ك[َِ]*ذ[ْ]*ا([َُِْ]*)#", "#\1هَاكَذَا#");
    ("#ل[َُِ]*ك[َِ]*ن([ْ]*)#", "#لَاْكِنْ#");
    ("#ل[َُِ]*ك[َِ]*ن([ّ]*)#", "#لَاْكِنْنَ#");
    ("#ا[َُِ]*ل[َُِ]*ذ[َُِ]*ي([َُِْ]*)#", "#اللّذِيْ#");
    ("#([فبك]*)ا[َُِ]*ل[َُِ]*ذ[َُِ]*ي([َُِْ]*)#", "#\1اللّذِيْ#");
    ("#ل[َُِ]*ل[َُِ]*ذ[َُِ]*ي([َُِْ]*)#", "#لِلْلَذِيْ#");
    ("#ا[َُِ]*ل[َُِ]*ت[َُِ]*ي([َُِْ]*)#", "#اللّتِيْ#");
    ("#([فبك]*)ا[َُِ]*ل[َُِ]*ت[َُِ]*ي([َُِْ]*)#", "#\1اللّتِيْ#");
    ("#ل[َُِ]*ل[َُِ]*ت[َُِ]*ي([َُِْ]*)#", "#لِلْلَتِيْ#");
    ("#ا[َُِ]*ل[َُِ]*ذ[َُِ]*ي[َُِ]*ن([َِ]*)#", "#اللّذِيْنَ#");
    ("#([فبك]*)ا[َُِ]*ل[َُِ]*ذ[َُِ]*ي[َُِ]*ن([َِ]*)#", "#\1اللّذِيْنَ#");
    ("#ل[َُِ]*ل[َُِ]*ذ[َُِ]*ي[َُِ]*ن([َِ]*)#", "#لِلْلَذِيْنَ#");
    ("#د[َُِ]*ا[َُِ]*و[َُِ]*د([ٌٍَِ]*|[اً]*)#", "#دَاوُوْد\1#");
    ("#ط[َُِ]*ا[َُِ]*و[َُِ]*س([ٌٍَِ]*|[اً]*)#", "#طَاوُوْس\1#");
    ("#ن[َُِ]*ا[َُِ]*و[َُِ]*س([ٌٍَِ]*|[اً]*)#", "#نَاوُوْس\1#");
    ("#ط[َُِ]*ه[َُِ]*#", "#طاها#") ].

Definition _handle_special_cases (text : str) : str :=
  apply_rules special_cases_rules (_clean_str text).

Definition lunar_letters : list str := List.map u8
  [ "أ"; "إ"; "ب"; "غ"; "ح"; "ج"; "ك"; "و"; "خ"; "ف"; "ع"; "ق"; "ي"; "م"; "ه" ].

Definition solar_letters : string := "تثدذرزسشصضطظلن".
Definition lunar_chars : string := "أإبغحجكوخفعقيمه".

Definition lunar_solar_rules : list (string * string) :=
  [
    (("و#ال([" ++ solar_letters ++ "])")%string, "و#\1ّ");
    (("(ا[َُِْ]*|ى[َُِْ]*|ي[ُِْ]*|وْ)#ال([" ++ solar_letters ++ "])")%string, "#\2ّ");
    (("(ي[َّ]*)#ال([" ++ solar_letters ++ "])")%string, "\1#\2ّ");
    (("ة([َُِ]*)#ال([" ++ solar_letters ++ "])")%string, "ت\1#\2ّ");
    (("#([فكب]*)ال([" ++ solar_letters ++ "])")%string, "#\1\2ّ");
    (("#لل([" ++ solar_letters ++ "])")%string, "ل#\1ّ");
    ("#ال(ا)", "#لِ");
    (("(ا[َُِْ]*|ى[َُِْ]*|ي[ُِْ]*|وْ)#ال([" ++ lunar_chars ++ "])")%string, "#لْ\2");
    (("#([فكب]*)ال([" ++ lunar_chars ++ "])")%string, "#\1لْ\2");
    (("#ال([" ++ lunar_chars ++ "])")%string, "#ألْ\1");
    (("#لل([" ++ lunar_chars ++ "])")%string, "#للْ\1") ].

(** The positional stage of [_handle_lunar_solar_lam], on a list of at
    least four elements. *)
Definition lunar_solar_positional (chars : list str) : list str :=
  let chars :=
    if is_at chars 0 "#" && is_at chars 1 "ا" && is_at chars 2 "ل"
       && is_at chars 3 "ا"
    then set_at 3 (u8 "ِ") (set_at 2 (u8 "ل") (set_at 1 (u8 "أ") (set_at 0 (u8 "#") chars)))
    else chars in
  let lunar_at i :=
    match chars !! i with
    | Some c => str_in c lunar_letters
    | None => false
    end in
  if is_at chars 0 "#" && is_at chars 1 "ا" && is_at chars 2 "ل"
     && (3 <? length chars)%nat && lunar_at 3%nat
  then set_at 2 (u8 "لْ") (set_at 1 (u8 "أ") (set_at 0 (u8 "#") chars))
  else if is_at chars 0 "#" && is_at chars 1 "ل" && is_at chars 2 "ل"
          && (3 <? length chars)%nat && lunar_at 3%nat
  then set_at 2 (u8 "لْ") (set_at 1 (u8 "ل") (set_at 0 (u8 "#") chars))
  else if is_at chars 0 "#" && is_at chars 1 "ف" && is_at chars 2 "ا"
          && is_at chars 3 "ل" && (4 <? length chars)%nat && lunar_at 4%nat
  then set_at 3 (u8 "ْ") (set_at 2 (u8 "ل") (set_at 1 (u8 "ف") (set_at 0 (u8 "#") chars)))
  else if is_at chars 0 "#" && is_at chars 1 "ب" && is_at chars 2 "ا"
          && is_at chars 3 "ل" && (4 <? length chars)%nat && lunar_at 4%nat
  then set_at 3 (u8 "ْ") (set_at 2 (u8 "ل") (set_at 1 (u8 "ب") (set_at 0 (u8 "#") chars)))
  else if is_at chars 0 "#" && is_at chars 1 "ك" && is_at chars 2 "ا"
          && is_at chars 3 "ل" && (4 <? length chars)%nat && lunar_at 4%nat
  then set_at 3 (u8 "ْ") (set_at 2 (u8 "ل") (set_at 1 (u8 "ك") (set_at 0 (u8 "#") chars)))
  else if is_at chars 0 "#" && is_at chars 1 "ا" && is_at chars 2 "ل"
  then
    let chars := set_at 1 (u8 "أ") (set_at 0 (u8 "#") chars) in
    match chars !! 3%nat with
    | Some c3 =>
      if negb (str_eqb c3 (u8 "ّ"))
      then pop 2 (set_at 3 (c3 ++ u8 "ّ") chars)
      else chars
    | None => chars
    end
  else chars.

(** [if chars[0] != '#': chars.insert(0, '#')] and
    [if chars[-1] != '#': chars.append('#')], on a non-empty list. *)
Definition ensure_edges (chars : list str) : list str :=
  let chars := if is_at chars 0 "#" then chars else hash :: chars in
  if is_at chars (length chars - 1)%nat "#" then chars else chars ++ [hash].

Definition _handle_lunar_solar_lam (text : str) : str :=
  let text := _clean_str text in
  let chars := _str_to_chars text in
  if (length chars <? 4)%nat then text
  else
    let chars := ensure_edges (lunar_solar_positional chars) in
    apply_rules lunar_solar_rules (Py.join chars).

(** The shadda loop of [_handle_tanween_shaddeh]: the list is changed in
    place, so [chars[i-1]] is the element as the loop left it. *)
Fixpoint shaddeh_loop (prev : option str) (chars : list str) : list str :=
  match chars with
  | [] => []
  | c :: rest =>
    let c' :=
      match prev with
      | Some p =>
        if str_eqb c (u8 "ّ") && str_in p ALPHABET then u8 "ْ" ++ p else c
      | None => c
      end in
    c' :: shaddeh_loop (Some c') rest
  end.

Definition tanween_rules : list (string * string) :=
  [
    ("اً", "نْ");
    ("ةٌ", "تُنْ");
    ("ةً", "تَنْ");
    ("ةٍ", "تِنْ");
    ("ىً", "نْ");
    ("[ًٌٍ]", "نْ") ].

Definition _handle_tanween_shaddeh (text : str) (is_ajez : bool) : str :=
  let text := _clean_str text in
  let chars := _str_to_chars text in
  match chars with
  | [] => text
  | _ :: _ =>
    let chars := shaddeh_loop None chars in
    let last := (length chars - 1)%nat in
    let chars :=
      if negb (is_at chars last "ْ")
         && (is_at chars last "ا" || is_at chars last "ى")
      then chars ++ [u8 "ْ"] else chars in
    let last := (length chars - 1)%nat in
    let chars :=
      if is_ajez then
        if negb (is_at chars last "ْ" || is_at chars last "ٌ"
                 || is_at chars last "ً" || is_at chars last "ٍ")
        then
          let extension :=
            if is_at chars last "َ" then u8 "اْ"
            else if is_at chars last "ِ" then u8 "يْ"
            else if is_at chars last "ُ" then u8 "وْ"
            else u8 "وْ" in
          chars ++ [extension]
        else chars
      else chars in
    let text := apply_rules tanween_rules (Py.join chars) in
    Py.replace text (u8 "ّ") []
  end.

Definition hamzat_wasl_rules : list (string * string) :=
  [
    ("([يواى]*)#ا[َُِْ]*ب[َُِْ]*ن", "#بْن");
    ("#([فكلب]*)ا[َُِْ]*ب[َُِْ]*ن", "#\1بْن");
    ("([يواى]*)#ا[َُِْ]*م[َُِْ]*ر", "#مْر");
    ("#([فكلب]*)ا[َُِْ]*م[َُِْ]*ر", "#\1مْر");
    ("([يواى]*)#ا[َُِْ]*ث[َُِْ]*ن[َُِْ]*ا[َُِْ]*ن", "#ثْنان");
    ("#([فكلب]*)ا[َُِْ]*ث[َُِْ]*ن[َُِْ]*ا[َُِْ]*ن", "#\1ثْنان");
    ("([يواى]*)#ا[َُِْ]*ث[َُِْ]*ن[َُِْ]*ي[َُِْ]*ن", "#ثْنيْن");
    ("#([فكلب]*)ا[َُِْ]*ث[َُِْ]*ن[َُِْ]*ي[َُِْ]*ن", "#\1ثْنيْن");
    ("([يواى]*)#ا[َُِْ]*ث[َُِْ]*ن[َُِْ]*ت[َُِْ]*ا[َُِْ]*ن", "#ثْنتان");
    ("#([فكلب]*)ا[َُِْ]*ث[َُِْ]*ن[َُِْ]*ت[َُِْ]*ا[َُِْ]*ن", "#\1ثْنتان");
    ("([يواى]*)#ا[َُِْ]*ث[َُِْ]*ن[َُِْ]*ت[َُِْ]*ي[َُِْ]*ن", "#ثْنتيْن");
    ("#([فكلب]*)ا[َُِْ]*ث[َُِْ]*ن[َُِْ]*ت[َُِْ]*ي[َُِْ]*ن", "#\1ثْنتيْن");
    ("([يواى]*)#ا[َُِْ]*س[َُِْ]*ت([َُِْ]*)", "#سْت\2");
    ("#([فكلب]*)ا[َُِْ]*س[َُِْ]*ت([َُِْ]*)", "#\1سْت\2");
    ("(ا|ي|ى)#ا(أ|إ|ب|ت|ث|ج|ح|خ|د|ذ|ر|ز|س|ش|ص|ض|ط|ظ|ع|غ|ف|ق|ك|م|ن|ه|و|ي)", "#\2ْ");
    ("#([فكلب]*)ا(أ|إ|ب|ت|ث|ج|ح|خ|د|ذ|ر|ز|س|ش|ص|ض|ط|ظ|ع|غ|ف|ق|ك|م|ن|ه|و|ي)([أإبتثجحخدذرزسشصضطظعغفقكلمنهوي]{4,})", "#\1\2ْ\3");
    ("#ا(أ|إ|ب|ت|ث|ج|ح|خ|د|ذ|ر|ز|س|ش|ص|ض|ط|ظ|ع|غ|ف|ق|ك|م|ن|ه|و|ي)", "#\1ْ") ].

Definition _handle_hamzat_wasl (text : str) : str :=
  let text := _clean_str text in
  let chars := _str_to_chars text in
  match chars with
  | [] => text
  | _ :: _ =>
    let chars :=
      if (3 <? length chars)%nat && is_at chars 1 "ا"
         && negb (is_at chars 2 "ل") && negb (is_at chars 3 "ل")
      then set_at 1 (u8 "إِ") chars else chars in
    let text := apply_rules hamzat_wasl_rules (Py.join chars) in
    Py.replace text (u8 "ْْ") (u8 "ْ")
  end.

(** The four passes of the orthographic normaliser, in the order every
    public operation runs them. *)
Definition normalise (text : str) (is_ajez : bool) : str :=
  let processed_text := _handle_special_cases text in
  let processed_text := _handle_lunar_solar_lam processed_text in
  let processed_text := _handle_tanween_shaddeh processed_text is_ajez in
  _handle_hamzat_wasl processed_text.

Local Open Scope nat_scope.

(** *** The skeleton extractor *)

Definition _get_chars_only (text : str) : str :=
  Py.join (List.filter
             (fun c => str_in c ALPHABET && negb (str_eqb c hash))
             (_str_to_chars text)).

(** The loop of [_get_harakat_only] over [range(len(chars) - 1)]: the
    last element is never looked at on its own. *)
Fixpoint harakat_loop (chars : list str) : list str :=
  match chars with
  | c :: rest =>
    match rest with
    | next :: _ =>
      (if str_in c HARAKAT then [c]
       else if str_in c ALPHABET && negb (str_eqb c hash)
               && negb (str_in next HARAKAT)
       then
         if negb (str_in c [u8 "ى"; u8 "ا"]) then [u8 "َ"] else [u8 "ْ"]
       else if str_in c ALPHABET && negb (str_eqb c hash)
               && str_in next HARAKAT
       then [next]
       else [])
      ++ harakat_loop rest
    | [] => []
    end
  | [] => []
  end.

Definition _get_harakat_only (text : str) : str :=
  let result_str := Py.join (harakat_loop (_str_to_chars text)) in
  let result_str := Py.replace result_str (u8 "ِ") (u8 "َ") in
  Py.replace result_str (u8 "ُ") (u8 "َ").

Definition _get_rokaz_khoutayt (harakat : str) : str :=
  let text := Py.replace harakat (u8 "َْ") (u8 "-") in
  let text := Py.replace text (u8 "َ") (u8 "U") in
  Py.replace text (u8 "ْ") (u8 "U").

(** *** The meter matcher *)

(** [for meter_name, pattern in table.items(): if re.match(...): return]:
    a dictionary is gone through in the order it was written. *)
Fixpoint first_match (table : list (string * string)) (rokaz : str)
  : string :=
  match table with
  | [] => "unknown"
  | (meter_name, pattern) :: table' =>
    if Re.re_match (Re.compile pattern) rokaz then meter_name
    else first_match table' rokaz
  end.

Definition _get_ba7er (rokaz : str) : string :=
  first_match METER_PATTERNS (u8 "%" ++ rokaz ++ u8 "%").

(** *** The foot segmenter *)

Definition _get_tafa3eel (rokaz chars : str) (ba7er_name : string)
  : list str :=
  if String.eqb ba7er_name "taweel" then
    let s := Py.slice rokaz 0 3 in
    let i := 0 in
    let '(result, i) :=
      if str_eqb s (u8 "U--")
      then ([u8 "فَعُوْلُنْ"; Py.slice chars i (i + 10)], i + 10)
      else if str_eqb s (u8 "U-U")
      then ([u8 "فَعُوْلُ"; Py.slice chars i (i + 8)], i + 8)
      else ([], i) in
    let result := result ++ [u8 "مَفَاْعِيْلُنْ"; Py.slice chars i (i + 14)] in
    let i := i + 14 in
    let s := Py.slice rokaz 7 10 in
    let '(result, i) :=
      if str_eqb s (u8 "U--")
      then (result ++ [u8 "فَعُوْلُنْ"; Py.slice chars i (i + 10)], i + 10)
      else if str_eqb s (u8 "U-U")
      then (result ++ [u8 "فَعُوْلُ"; Py.slice chars i (i + 8)], i + 8)
      else (result, i) in
    let s := drop 10 rokaz in
    if str_eqb s (u8 "U---")
    then result ++ [u8 "مَفَاْعِيْلُنْ"; Py.slice chars i (i + 14)]
    else if str_eqb s (u8 "U-U-")
    then result ++ [u8 "مَفَاْعِلُنْ"; Py.slice chars i (i + 12)]
    else if str_eqb s (u8 "U--")
    then result ++ [u8 "فَعُوْلُنْ"; Py.slice chars i (i + 10)]
    else result
  else if String.eqb ba7er_name "baseet" then
    let s := Py.slice rokaz 0 4 in
    let i := 0 in
    let '(result, i) :=
      if str_eqb s (u8 "--U-")
      then ([u8 "مُسْتَفْعِلُنْ"; Py.slice chars i (i + 14)], i + 14)
      else if str_eqb s (u8 "U-U-")
      then ([u8 "مُتَفْعِلُنْ"; Py.slice chars i (i + 12)], i + 12)
      else if str_eqb s (u8 "-UU-")
      then ([u8 "مُسْتَعِلُنْ"; Py.slice chars i (i + 12)], i + 12)
      else ([], i) in
    let s := Py.slice rokaz 4 7 in
    let '(result, i) :=
      if str_eqb s (u8 "-U-")
      then (result ++ [u8 "فَاْعِلُنْ"; Py.slice chars i (i + 10)], i + 10)
      else if str_eqb s (u8 "UU-")
      then (result ++ [u8 "فَعِلُنْ"; Py.slice chars i (i + 8)], i + 8)
      else (result, i) in
    let result := result ++ [u8 "مُسْتَفْعِلُنْ"; Py.slice chars i (i + 14)] in
    let i := i + 14 in
    let s := Py.slice rokaz 11 14 in
    if str_eqb s (u8 "-U-")
    then result ++ [u8 "فَاْعِلُنْ"; Py.slice chars i (i + 10)]
    else if str_eqb s (u8 "UU-")
    then result ++ [u8 "فَعِلُنْ"; Py.slice chars i (i + 8)]
    else if str_eqb s (u8 "--")
    then result ++ [u8 "فَاْلُنْ"; Py.slice chars i (i + 8)]
    else result
  else [].

(** *** The ishbaa search *)

(** [_get_truth_values] builds lists that are shared: [trues] and
    [falses] are two names of one list, and every row of the table is
    a reference to a list that later calls go on changing.  The rows
    live in a store; the table holds their addresses. *)
Definition store := list (list str).

(** [row.insert(0, bit)] on the row at address [r]. *)
Definition insert_front (bit : string) (r : nat) (h : store) : store :=
  alter (cons (u8 bit)) r h.

Fixpoint _get_truth_values (count : nat) (h : store)
  : result (list nat * store) :=
  match count with
  | O => Raise RecursionError
  | S O => Ok ([length h; S (length h)], h ++ [[u8 "1"]; [u8 "0"]])
  | S count' =>
    let* rec := _get_truth_values count' h in
    let '(trues, h) := rec in
    let falses := trues in
    let h :=
      fold_left
        (fun h i =>
           match trues !! i, falses !! i with
           | Some t, Some f => insert_front "0" f (insert_front "1" t h)
           | _, _ => h
           end)
        (seq 0 (length trues)) h in
    Ok (trues ++ falses, h)
  end.

(** The rows of a table, as the loop over it reads them. *)
Definition rows (table : list nat) (h : store) : list (list str) :=
  List.map (fun r => default [] (h !! r)) table.

Record AnalysisResult := {
  shater : str;
  arrodi : str;
  chars : str;
  harakat : str;
  rokaz : str;
  ba7er_name : string;
  tafa3eel : list str
}.

Definition pronouns : list str := [u8 "هُ"; u8 "هِ"; u8 "مُ"].

(** [[i for i, part in enumerate(parts) if part in pronouns]]. *)
Fixpoint pronoun_positions (i : nat) (parts : list str) : list nat :=
  match parts with
  | [] => []
  | part :: parts' =>
    (if str_in part pronouns then [i] else [])
    ++ pronoun_positions (S i) parts'
  end.

(** The inner loop over the bits of one state. *)
Fixpoint lengthen (i : nat) (state : list str) (temp_positions : list nat)
         (temp_parts : list str) : result (list str) :=
  match state with
  | [] => Ok temp_parts
  | bit :: state' =>
    if str_eqb bit (u8 "1") then
      let* p := index temp_positions i in
      let* part := index temp_parts p in
      let temp_parts :=
        if str_eqb part (u8 "هُ") then <[p := part ++ u8 "وْ"]> temp_parts
        else if str_eqb part (u8 "هِ") then <[p := part ++ u8 "يْ"]> temp_parts
        else if str_eqb part (u8 "مُ") then <[p := part ++ u8 "وْ"]> temp_parts
        else temp_parts in
      lengthen (S i) state' temp_positions temp_parts
    else lengthen (S i) state' temp_positions temp_parts
  end.

(** The loop over the states; [None] is ['unknownAlso']. *)
Fixpoint try_states (truth_table : list (list str)) (parts : list str)
         (positions : list nat) : result (option AnalysisResult) :=
  match truth_table with
  | [] => Ok None
  | state :: truth_table' =>
    let* temp_parts := lengthen 0 state positions parts in
    let state_text := Py.join temp_parts in
    let state_text := Re.sub (Re.compile "#+") (u8 "#") state_text in
    let processed_text := Py.replace state_text (u8 "#") (u8 " ") in
    let processed_text := Re.sub (Re.compile " +") [] processed_text in
    let arrodi_written := processed_text in
    let chars := _get_chars_only arrodi_written in
    let harakat := _get_harakat_only arrodi_written in
    let rokaz := _get_rokaz_khoutayt harakat in
    let ba7er_name := _get_ba7er rokaz in
    if negb (String.eqb ba7er_name "unknown") then
      Ok (Some {| shater := state_text; arrodi := arrodi_written;
                  chars := chars; harakat := harakat; rokaz := rokaz;
                  ba7er_name := ba7er_name;
                  tafa3eel := _get_tafa3eel rokaz chars ba7er_name |})
    else try_states truth_table' parts positions
  end.

Definition _do_eshbaa3_shater (text : str) : result (option AnalysisResult) :=
  let text := u8 "#" ++ text ++ u8 "#" in
  let parts := Re.split (Re.compile "(هُ|هِ|مُ)#") text in
  let positions := pronoun_positions 0 parts in
  let* truth_table :=
    match positions with
    | _ :: _ =>
      let* t := _get_truth_values (length positions) [] in
      Ok (rows (fst t) (snd t))
    | [] => Ok [[u8 "0"]]
    end in
  try_states truth_table parts positions.

(** *** Classical verse *)

Definition analyze_classical_verse (text : str) (is_ajez : bool)
  : result AnalysisResult :=
  let processed_text := normalise text is_ajez in
  let old_text := processed_text in
  let processed_text := Py.replace processed_text (u8 "#") (u8 " ") in
  let processed_text := Re.sub (Re.compile " +") [] processed_text in
  let arrodi_written := processed_text in
  let chars := _get_chars_only arrodi_written in
  let harakat := _get_harakat_only arrodi_written in
  let rokaz := _get_rokaz_khoutayt harakat in
  let ba7er_name := _get_ba7er rokaz in
  if negb (String.eqb ba7er_name "unknown") then
    let tafa3eel := _get_tafa3eel rokaz chars ba7er_name in
    let tafa3eel :=
      List.map (fun t => Py.replace (Py.replace t (u8 "ى") (u8 "ى "))
                                 (u8 "ة") (u8 "ة ")) tafa3eel in
    Ok {| shater := processed_text; arrodi := arrodi_written;
          chars := chars; harakat := harakat; rokaz := rokaz;
          ba7er_name := ba7er_name; tafa3eel := tafa3eel |}
  else
    let* result := _do_eshbaa3_shater old_text in
    match result with
    | Some r => Ok r
    | None =>
      Ok {| shater := processed_text; arrodi := arrodi_written;
            chars := chars; harakat := harakat; rokaz := rokaz;
            ba7er_name := "unknown"; tafa3eel := [] |}
    end.

(** *** The free-verse engine *)

(** The candidates for the four symbols a skeleton opens with; [None]
    is the final [else] of the chain. *)
Definition tafeela_base (rokaz : str) : option (list (string * string)) :=
  if str_eqb rokaz (u8 "UUU-") then
    Some [ ("rajaz", "(--U-|-UU-|U-U-|UUU-|U-){5}");
           ("khabab", "(UU-|-UU|--){7}") ]
  else if str_eqb rokaz (u8 "UU-U") then
    Some [ ("kamel", "(UU-U-|--U-){4}");
           ("ramal", "(-U--|UU--|UU-U){5}");
           ("mutadarak", "(-U-|UU-){7}") ]
  else if str_eqb rokaz (u8 "UU--") then
    Some [ ("ramal", "(-U--|UU--|UU-U){5}") ]
  else if str_eqb rokaz (u8 "U-UU") then
    Some [ ("wafer", "(U-UU-|U---){4}");
           ("mutakareb", "(U--|U-U|U-){7}") ]
  else if str_eqb rokaz (u8 "U-U-") then
    Some [ ("rajaz", "(--U-|-UU-|U-U-|UUU-|U-){5}");
           ("mutakareb", "(U--|U-U|U-){7}") ]
  else if str_eqb rokaz (u8 "U--U") then
    Some [ ("wafer", "(U-UU-|U---){4}");
           ("mutakareb", "(U--|U-U|U-){7}") ]
  else if str_eqb rokaz (u8 "U---") then
    Some [ ("wafer", "(U-UU-|U---)") ]
  else if str_eqb rokaz (u8 "-UU-") then
    Some [ ("rajaz", "(--U-|-UU-|U-U-|UUU-|U-){5}") ]
  else if str_eqb rokaz (u8 "-U-U") then
    Some [ ("mutadarak", "(-U-|UU-){7}") ]
  else if str_eqb rokaz (u8 "-U--") then
    Some [ ("ramal", "(-U--|UU--|UU-U){5}");
           ("mutadarak", "(-U-|UU-){7}") ]
  else if str_eqb rokaz (u8 "--U-") then
    Some [ ("kamel", "(UU-U-|--U-){4}");
           ("rajaz", "(--U-|-UU-|U-U-|UUU-|U-){5}");
           ("mutadarak", "(-U-|UU-){7}") ]
  else None.

(** [len(re.findall(pattern, test_rokaz))]. *)
Definition score (pattern : string) (test_rokaz : str) : nat :=
  length (Re.findall (Re.compile pattern) test_rokaz).

(** ['U-UU-' in re.findall(pattern, test_rokaz)]. *)
Definition sub_match_found (pattern : string) (test_rokaz : str) : bool :=
  str_in (u8 "U-UU-") (Re.findall (Re.compile pattern) test_rokaz).

(** The scoring loop, from the state [(max_matches, best_meter)]. *)
Fixpoint score_loop (candidates : list (string * string)) (test_rokaz : str)
         (max_matches : nat) (best_meter : string) : string :=
  match candidates with
  | [] => best_meter
  | (meter_name, pattern) :: candidates' =>
    let matches := score pattern test_rokaz in
    if max_matches <? matches then
      let best_meter := meter_name in
      let best_meter :=
        if String.eqb best_meter "wafer" then
          if sub_match_found pattern test_rokaz then "wafer" else "hazaj"
        else best_meter in
      score_loop candidates' test_rokaz matches best_meter
    else score_loop candidates' test_rokaz max_matches best_meter
  end.

(** The prefix that is scored: [old_rokaz[:21]]. *)
Definition scored_prefix (old_rokaz : str) : str :=
  if 21 <=? length old_rokaz then take 21 old_rokaz else old_rokaz.

(** The four symbols a skeleton opens with: [rokaz[:4]] when there are
    four, else the whole of it. *)
Definition opening (rokaz : str) : str :=
  if 4 <=? length rokaz then take 4 rokaz else rokaz.

Definition _what_tafeela_poem_on (rokaz : str) : string :=
  let old_rokaz := rokaz in
  let rokaz := opening rokaz in
  match tafeela_base rokaz with
  | None => "unknown"
  | Some candidates =>
    score_loop candidates (scored_prefix old_rokaz) 0 "unknown"
  end.

(** *** The rhyme analyser *)

Record QafeehAnalysis := {
  text : str;
  type : str;
  rawee : str;
  wasel : str;
  kharoog : str;
  ta2ses : str;
  dakheel : str;
  redf : str;
  errors : option (list str)
}.

(** [xs[i]] where the source has made sure that [i] is in range. *)
Definition elem (xs : list str) (i : nat) : str := default [] (xs !! i).

(** [while index >= 0 and chars[index] not in ALPHABET], with
    [m = index + 1]. *)
Fixpoint back_while (m : nat) (chars : list str) (current_qafeeh : list str)
  : list str * nat :=
  match m with
  | O => (current_qafeeh, O)
  | S index =>
    if negb (str_in (elem chars index) ALPHABET)
    then back_while index chars (current_qafeeh ++ [elem chars index])
    else (current_qafeeh, m)
  end.

(** The loop from the last element down that collects the rhyme, with
    [n = i + 1]. *)
Fixpoint qafeeh_scan (n : nat) (chars : list str) (current_qafeeh : list str)
         (sokons_count : nat) : list str :=
  match n with
  | O => current_qafeeh
  | S i =>
    let c := elem chars i in
    let current_qafeeh := current_qafeeh ++ [c] in
    let next_no_sukun :=
      (S i <? length chars) && negb (str_eqb (elem chars (S i)) (u8 "ْ")) in
    let sokons_count :=
      if str_eqb c (u8 "ْ")
         || (str_eqb c (u8 "ا") && next_no_sukun)
         || (str_eqb c (u8 "ى") && next_no_sukun)
      then S sokons_count else sokons_count in
    if 2 <=? sokons_count then
      let current_qafeeh :=
        match i with
        | S j => current_qafeeh ++ [elem chars j]
        | O => current_qafeeh
        end in
      let '(current_qafeeh, m) := back_while (i - 1) chars current_qafeeh in
      if (3 <=? length current_qafeeh)
         && str_eqb (elem current_qafeeh (length current_qafeeh - 3)) (u8 "ْ")
         && (0 <? m)
      then current_qafeeh ++ [elem chars (m - 1)]
      else current_qafeeh
    else qafeeh_scan i chars current_qafeeh sokons_count
  end.

(** The loop that pairs the letters of the rhyme with their marks and
    the number of their word, with [n = i + 1]. *)
Fixpoint qafeeh_parts (n : nat) (chars : list str) (word_no : nat)
         (alphas harakat : list str) (word_positions : list nat)
  : list str * list str * list nat :=
  match n with
  | O => (alphas, harakat, word_positions)
  | S i =>
    let c := elem chars i in
    if str_in c ALPHABET then
      let word_no := if str_eqb c hash then S word_no else word_no in
      qafeeh_parts i chars word_no (alphas ++ [c]) (harakat ++ [[]])
                   (word_positions ++ [word_no])
    else if str_in c HARAKAT then
      match i with
      | S j =>
        let word_no := if str_eqb c hash then S word_no else word_no in
        qafeeh_parts i chars word_no (alphas ++ [elem chars j])
                     (harakat ++ [c]) (word_positions ++ [word_no])
      | O =>
        qafeeh_parts i chars word_no (alphas ++ [[]]) (harakat ++ [c])
                     (word_positions ++ [word_no])
      end
    else qafeeh_parts i chars word_no alphas harakat word_positions
  end.

Definition truthy (s : str) : bool :=
  match s with [] => false | _ => true end.

Definition _analyse_qafeeh (ajez : str) : result QafeehAnalysis :=
  let current_ajez := normalise ajez true in
  let current_ajez := Py.replace current_ajez (u8 "#") (u8 " ") in
  let current_ajez := Re.sub (Re.compile " +") [] current_ajez in
  let chars := _str_to_chars current_ajez in
  let current_qafeeh := qafeeh_scan (length chars) chars [] 0 in
  let current_qafeeh_text := Py.join (rev current_qafeeh) in
  let current_qafeeh_text :=
    Py.replace current_qafeeh_text (u8 "#") (u8 " ") in
  let chars := _str_to_chars current_qafeeh_text in
  let '(alphas, harakat, word_positions) :=
    qafeeh_parts (length chars) chars 1 [] [] [] in
  let qafeeh_alphas := rev alphas in
  let qafeeh_harakat := rev harakat in
  let qafeeh_word_positions := rev word_positions in
  let* first := index qafeeh_alphas 0 in
  let start_idx := if str_eqb first [] then 1 else 0 in
  let qafeeh_text :=
    Py.join (List.map (fun i => elem qafeeh_alphas i ++ elem qafeeh_harakat i)
                      (seq start_idx (length qafeeh_alphas - start_idx))) in
  let* last_char := index_back qafeeh_alphas 1 in
  let* last_haraka := index_back qafeeh_harakat 1 in
  let n := length qafeeh_alphas in
  let has_vowel_before :=
    (1 <? length qafeeh_harakat)
    && negb (str_eqb (elem qafeeh_harakat (length qafeeh_harakat - 2))
                     (u8 "ْ")) in
  (* (rhyme_type, rawee_pos, rawee, wasel, kharoog) *)
  let* parts :=
    if str_eqb last_char (u8 "ه") && has_vowel_before
       || str_eqb last_char (u8 "ك") && has_vowel_before
    then
      let* a2 := index_back qafeeh_alphas 2 in
      let* h2 := index_back qafeeh_harakat 2 in
      Ok ("F", n - 2, a2 ++ h2, last_char ++ last_haraka, [])
    else if str_in last_char [u8 "ا"; u8 "ى"; u8 "و"; u8 "ي"] then
      if (1 <? n) && str_eqb (elem qafeeh_alphas (n - 2)) (u8 "ه")
         && has_vowel_before
      then
        let* a3 := index_back qafeeh_alphas 3 in
        let* h3 := index_back qafeeh_harakat 3 in
        let* a2 := index_back qafeeh_alphas 2 in
        let* h2 := index_back qafeeh_harakat 2 in
        Ok ("F", n - 3, a3 ++ h3, a2 ++ h2, last_char ++ last_haraka)
      else
        let* a2 := index_back qafeeh_alphas 2 in
        let* h2 := index_back qafeeh_harakat 2 in
        Ok ("F", n - 2, a2 ++ h2, last_char ++ last_haraka, [])
    else Ok ("M", n - 1, last_char ++ last_haraka, [], []) in
  let '(rhyme_type, rawee_pos, rawee, wasel, kharoog) := parts in
  (* (redf, ta2ses, dakheel) *)
  let '(redf, ta2ses, dakheel) :=
    if 0 <? rawee_pos then
      let c := elem qafeeh_alphas (rawee_pos - 1) in
      let ch := elem qafeeh_harakat (rawee_pos - 1) in
      let '(cb, cbh, cbw) :=
        if 1 <? rawee_pos then
          if negb (str_eqb (elem qafeeh_alphas (rawee_pos - 2)) hash) then
            (elem qafeeh_alphas (rawee_pos - 2),
             elem qafeeh_harakat (rawee_pos - 2),
             qafeeh_word_positions !! (rawee_pos - 2))
          else if 2 <? rawee_pos then
            (elem qafeeh_alphas (rawee_pos - 3),
             elem qafeeh_harakat (rawee_pos - 3),
             qafeeh_word_positions !! (rawee_pos - 3))
          else (u8 "غ", u8 "غ", None)
        else (u8 "غ", u8 "غ", None) in
      if (str_eqb c (u8 "و") && str_eqb ch (u8 "ْ") && str_eqb cbh (u8 "ُ"))
         || (str_eqb c (u8 "ي") && str_eqb ch (u8 "ْ") && str_eqb cbh (u8 "ِ"))
         || (str_eqb c (u8 "ا") && str_eqb cbh (u8 "َ"))
         || (str_eqb c (u8 "ى") && str_eqb cbh (u8 "َ"))
      then (c ++ ch, [], [])
      else if str_in cb [u8 "ا"; u8 "ى"] && bool_decide (cbw = Some 1)
      then ([], cb, c ++ ch)
      else ([], [], [])
    else ([], [], []) in
  let* type_desc :=
    if String.eqb rhyme_type "F" then
      if negb (truthy kharoog) && negb (truthy redf) && negb (truthy ta2ses)
      then Ok (u8 "قافية مطلقة مجرَّدة")
      else if truthy redf then
        Ok (u8 "قافية مطلقة بردف" ++ if truthy kharoog then u8 " و خروج" else [])
      else if truthy ta2ses then
        Ok (u8 "قافية مطلقة بتأسيس" ++ if truthy kharoog then u8 " و خروج" else [])
      else if truthy kharoog then Ok (u8 "قافية مطلقة بخروج")
      else Raise UnboundLocalError
    else
      if negb (truthy redf) && negb (truthy ta2ses) then Ok (u8 "قافية مقيّدة مجرَّدة")
      else if truthy redf then Ok (u8 "قافية مقيّدة بردف")
      else Ok (u8 "قافية مقيّدة بتأسيس") in
  let qafeeh_text := Py.replace qafeeh_text (u8 "#") (u8 " ") in
  Ok {| text := qafeeh_text; type := type_desc; rawee := rawee;
        wasel := wasel; kharoog := kharoog; ta2ses := ta2ses;
        dakheel := dakheel; redf := redf; errors := None |}.

(** An element of the list [analyze_rhyme_patterns] returns: the string
    ['empty'] or an analysis. *)
Inductive rhyme_entry :=
| empty
| analysed (q : QafeehAnalysis).

(** What [analyze_rhyme_patterns] returns: the string ['emptyAll'] or a
    list. *)
Inductive rhyme_result :=
| emptyAll
| entries (results : list rhyme_entry).

Definition is_empty (verse : str) : bool := str_eqb verse (u8 "empty").

(** The first loop: the verses before the first one that is not
    ['empty'], and the verses from that one on. *)
Fixpoint leading_empty (verses : list str) : list rhyme_entry * list str :=
  match verses with
  | [] => ([], [])
  | verse :: verses' =>
    if negb (is_empty verse) then ([], verses)
    else let '(results, rest) := leading_empty verses' in
         (empty :: results, rest)
  end.

(** The comparison of a verse with the rhyme of the poem. *)
Definition rhyme_errors (current_qafeeh base_qafeeh : QafeehAnalysis)
  : list str :=
  if negb (str_eqb (rawee current_qafeeh) (rawee base_qafeeh)) then
    [u8 "قافية هذا البيت مختلفة كليَّاً عن قافية القصيدة و ذلك <b>لاختلاف الرَّويِّ</b> بين القافيتين."]
  else if negb (str_eqb (wasel current_qafeeh) (wasel base_qafeeh)) then
    if negb ((str_eqb (wasel current_qafeeh) (u8 "اْ")
              && str_eqb (wasel base_qafeeh) (u8 "ىْ"))
             || (str_eqb (wasel current_qafeeh) (u8 "ىْ")
                 && str_eqb (wasel base_qafeeh) (u8 "اْ")))
    then [u8 "قافية هذا البيت مختلفة عن قافية القصيدة بسبب <b>اختلاف حرف الوصل</b>."]
    else []
  else
    (if truthy (ta2ses current_qafeeh) && negb (truthy (ta2ses base_qafeeh))
     then [u8 "لقد قمت باستعمال ألف التأسيس في قافية هذا البيت في حين أنَّ قافية القصيدة ليست مؤسَّسة و هذا عيب من عيوب القافية يعرف بـ<b>سناد التأسيس</b>."]
     else if negb (truthy (ta2ses current_qafeeh))
             && truthy (ta2ses base_qafeeh)
     then [u8 "يجب أن تُؤَسَّسَ قافية هذا البيت بألف التأسيس !"]
     else [])
    ++
    (if truthy (redf current_qafeeh) && negb (truthy (redf base_qafeeh))
     then [u8 "لقد قمت باستعمال ردف للقافية في قافية هذا البيت في حين أنَّ قافية القصيدة ليست مردفة و هذا عيب من عيوب القافية يعرف بـ<b>سناد الرِّدف</b>."]
     else if negb (truthy (redf current_qafeeh)) && truthy (redf base_qafeeh)
     then [u8 "يجب أن تُرْدِفَ قافية هذا البيت بحرف الرِّدف المناسب قبل الرَّوي مباشرةً !"]
     else if truthy (redf current_qafeeh) && truthy (redf base_qafeeh)
     then
       if (str_in (redf current_qafeeh) [u8 "يْ"; u8 "وْ"]
           && str_in (redf base_qafeeh) [u8 "ا"; u8 "اْ"])
          || (str_in (redf current_qafeeh) [u8 "اْ"; u8 "ا"]
              && str_in (redf base_qafeeh) [u8 "وْ"; u8 "يْ"])
       then [u8 "لا يمكن أن تجتمع الياء أو الواو كردف مع الألف كردف !"]
       else []
     else [])
    ++
    (if negb (str_eqb (rawee current_qafeeh) (rawee base_qafeeh))
     then [u8 "الخروج مختلف في البيت الحالي عن الخروج في قافية القصيدة"]
     else []).

Definition with_errors (q : QafeehAnalysis) (errs : list str)
  : QafeehAnalysis :=
  {| text := text q; type := type q; rawee := rawee q; wasel := wasel q;
     kharoog := kharoog q; ta2ses := ta2ses q; dakheel := dakheel q;
     redf := redf q; errors := Some errs |}.

(** The second loop, over the verses after the reference verse. *)
Fixpoint remaining (base_qafeeh : QafeehAnalysis) (verses : list str)
  : result (list rhyme_entry) :=
  match verses with
  | [] => Ok []
  | verse :: verses' =>
    if negb (is_empty verse) then
      let* current_qafeeh := _analyse_qafeeh verse in
      let errors := rhyme_errors current_qafeeh base_qafeeh in
      let* results := remaining base_qafeeh verses' in
      Ok (analysed (with_errors current_qafeeh errors) :: results)
    else
      let* results := remaining base_qafeeh verses' in
      Ok (empty :: results)
  end.

Definition analyze_rhyme_patterns (verses : list str) : result rhyme_result :=
  match leading_empty verses with
  | (_, []) => Ok emptyAll
  | (results, verse :: verses') =>
    let* base_qafeeh := _analyse_qafeeh verse in
    let* results' := remaining base_qafeeh verses' in
    Ok (entries (results ++ analysed base_qafeeh :: results'))
  end.

(** *** The wizard validator *)

(** [str(n)] for a natural number. *)
Fixpoint decimal (fuel n : nat) (acc : str) : str :=
  match fuel with
  | O => acc
  | S fuel' =>
    let acc := (48 + N.of_nat (n mod 10))%N :: acc in
    if n <? 10 then acc else decimal fuel' (n / 10) acc
  end.

Definition str_of_nat (n : nat) : str := decimal (S n) n [].

Definition _get_char_name (n : nat) : str :=
  match n with
  | 1 => u8 "الأوّل" | 2 => u8 "الثّاني" | 3 => u8 "الثّالث"
  | 4 => u8 "الرّابع" | 5 => u8 "الخامس" | 6 => u8 "السّادس"
  | 7 => u8 "السّابع" | 8 => u8 "الثّامن" | 9 => u8 "التّاسع"
  | 10 => u8 "العاشر"
  | _ => u8 "رقم " ++ str_of_nat n
  end.

Definition _get_state_name (n : nat) : str :=
  match n with
  | 1 => u8 "الأولى" | 2 => u8 "الثّانية" | 3 => u8 "الثّالثة"
  | 4 => u8 "الرّابعة" | 5 => u8 "الخامسة" | 6 => u8 "السّادسة"
  | _ => u8 "رقم " ++ str_of_nat n
  end.

Definition heading (state_no : nat) (name : str) : str :=
  u8 "<b> الصورة" ++ _get_state_name state_no ++ u8 " (" ++ name
     ++ u8 ") :</b>".

(** One of the two inner loops of [_compare_with_tafeela]: they differ
    in the index [last] and in the message [at_last] of the final test. *)
Fixpoint compare_loop (state_no : nat) (name : str) (last : nat)
         (at_last : str) (j char_pos : nat) (current pattern : str)
  : list str :=
  match current, pattern with
  | curr_char :: current', exp_char :: pattern' =>
    let char_pos :=
      if (curr_char =? 85)%N then char_pos + 1
      else if (curr_char =? 45)%N then char_pos + 2
      else char_pos in
    if (curr_char =? exp_char)%N then
      compare_loop state_no name last at_last (S j) char_pos
                   current' pattern'
    else if (curr_char =? 85)%N then
      [heading state_no name
         ++ u8 "يجب تسكين الحرف " ++ _get_char_name (char_pos + 1) ++ u8 " "
         ++ u8 "كي نحصل على تقطيع متوافق مع هذه الصورة"]
    else if (curr_char =? 45)%N then
      [heading state_no name
         ++ u8 "يجب أن يكون الحرف " ++ _get_char_name char_pos
         ++ u8 " متحركاً "
         ++ u8 "كي نحصل على تقطيع متوافق مع هذه الصورة"]
    else if j =? last then [heading state_no name ++ at_last]
    else
      compare_loop state_no name last at_last (S j) char_pos
                   current' pattern'
  | _, _ => []
  end.

Fixpoint compare_states (state_no : nat) (current : str)
         (expected_patterns pattern_names : list str) : list str :=
  match expected_patterns, pattern_names with
  | pattern :: expected_patterns', name :: pattern_names' =>
    (if length current <=? length pattern then
       compare_loop state_no name (length current - 1)
                    (u8 "التقطيع الحالي لهذه التفعيلة أقصر وزنيّاً من هذه الصورة") 0 0 current pattern
     else
       compare_loop state_no name (length pattern - 1)
                    (u8 "التقطيع الحالي لهذه التفعيلة أطول وزنيّاً من هذه الصورة") 0 0 current pattern)
    ++ compare_states (S state_no) current expected_patterns' pattern_names'
  | _, _ => []
  end.

Definition _compare_with_tafeela (current : str)
           (expected_patterns pattern_names : list str) : list str :=
  compare_states 1 current expected_patterns pattern_names.

(** An entry of the list the wizard returns; [errs] is there when the
    status is ['err']. *)
Record FootReport := {
  status : string;
  taf3eela : str;
  foot_chars : str;
  errs : option (list str)
}.

(** [for j, p in enumerate(patterns): if p == current_status:
       current_name = names[j]; break], from [current_name = '']. *)
Fixpoint find_name (j : nat) (patterns names : list str)
         (current_status : str) : result str :=
  match patterns with
  | [] => Ok []
  | p :: patterns' =>
    if str_eqb p current_status then index names j
    else find_name (S j) patterns' names current_status
  end.

(** [sum(2 if c == '-' else 1 for c in current_status) * 2]. *)
Definition char_length (current_status : str) : nat :=
  list_sum (List.map (fun c => if (c =? 45)%N then 2 else 1) current_status)
  * 2.

Definition display (current_chars : str) : str :=
  Py.replace (Py.replace current_chars (u8 "ى") (u8 "ى "))
             (u8 "ة") (u8 "ة ").

(** The state of the [while] loop, and one foot taken off it. *)
Record wizard_state := { w_rokaz : str; w_chars : str }.

(** The [for] loop over the alternatives: the first one that is a
    prefix of the skeleton, if there is one. *)
Fixpoint try_alternatives (todo patterns names : list str)
         (st : wizard_state) : result (option (FootReport * wizard_state)) :=
  match todo with
  | [] => Ok None
  | pattern :: todo' =>
    let current_status := take (length pattern) (w_rokaz st) in
    let* current_name := find_name 0 patterns names current_status in
    if str_eqb pattern current_status then
      let n := char_length current_status in
      Ok (Some ({| status := "ok"; taf3eela := current_name;
                   foot_chars := display (take n (w_chars st));
                   errs := None |},
                {| w_rokaz := drop (length pattern) (w_rokaz st);
                   w_chars := drop n (w_chars st) |}))
    else try_alternatives todo' patterns names st
  end.

(** One turn of the [while] loop. *)
Definition wizard_step (patterns names : list str) (st : wizard_state)
  : result (FootReport * wizard_state) :=
  let* found := try_alternatives patterns patterns names st in
  match found with
  | Some r => Ok r
  | None =>
    let* first := index patterns 0 in
    let current_status := take (length first) (w_rokaz st) in
    let* current_name := find_name 0 patterns names current_status in
    let n := char_length current_status in
    let errors := _compare_with_tafeela current_status patterns names in
    Ok ({| status := "err"; taf3eela := current_name;
           foot_chars := display (take n (w_chars st));
           errs := Some errors |},
        {| w_rokaz := drop (length first) (w_rokaz st);
           w_chars := drop n (w_chars st) |})
  end.

(** [while rokaz: ...], for at most [fuel] turns; [None] when the turns
    are used up with a skeleton still left. *)
Fixpoint wizard_loop (fuel : nat) (patterns names : list str)
         (st : wizard_state) (results : list FootReport)
  : option (result (list FootReport)) :=
  match w_rokaz st with
  | [] => Some (Ok results)
  | _ :: _ =>
    match fuel with
    | O => None
    | S fuel' =>
      match wizard_step patterns names st with
      | Ok (report, st') =>
        wizard_loop fuel' patterns names st' (results ++ [report])
      | Raise e => Some (Raise e)
      end
    end
  end.

(** The state the loop of [wizard_analysis_free_verse] starts from. *)
Definition wizard_start (text : str) : wizard_state :=
  let processed_text := normalise text false in
  let processed_text := Py.replace processed_text (u8 "#") (u8 " ") in
  let processed_text := Re.sub (Re.compile " +") [] processed_text in
  let chars := _get_chars_only processed_text in
  let harakat := _get_harakat_only processed_text in
  let rokaz := _get_rokaz_khoutayt harakat in
  {| w_rokaz := rokaz; w_chars := chars |}.

Definition wizard_analysis_free_verse (fuel : nat) (text : str)
           (rule_patterns rule_names : list str)
  : option (result (list FootReport)) :=
  wizard_loop fuel rule_patterns rule_names (wizard_start text) [].

(** *** Classical verse against expected feet *)

(** The loop of [wizard_analysis_classical] over the groups of
    alternatives: its body is the body of the loop of
    [wizard_analysis_free_verse], and it stops at the first foot that
    fits no alternative. *)
Fixpoint classical_loop (groups : list (list str * list str))
         (st : wizard_state) (results : list FootReport)
  : result (list FootReport) :=
  match groups with
  | [] => Ok results
  | (patterns, names) :: groups' =>
    let* r := wizard_step patterns names st in
    let '(report, st') := r in
    if String.eqb (status report) "ok"
    then classical_loop groups' st' (results ++ [report])
    else Ok (results ++ [report])
  end.

(** The state the loop of [wizard_analysis_classical] starts from. *)
Definition classical_start (text : str) (is_ajez : bool) : wizard_state :=
  let processed_text := normalise text is_ajez in
  let processed_text := Py.replace processed_text (u8 "#") (u8 " ") in
  let processed_text := Re.sub (Re.compile " +") [] processed_text in
  let chars := _get_chars_only processed_text in
  let harakat := _get_harakat_only processed_text in
  let rokaz := _get_rokaz_khoutayt harakat in
  {| w_rokaz := rokaz; w_chars := chars |}.

Definition wizard_analysis_classical (text : str) (is_ajez : bool)
           (rule_patterns rule_names : list (list str))
  : result (list FootReport) :=
  classical_loop (combine rule_patterns rule_names)
                 (classical_start text is_ajez) [].

(** *** Free verse *)

(** What [_get_tafaeel_for_tafeela_poem] returns for a known meter. *)
Record PoemResult := {
  poem_ba7er : string;
  poem_tafa3eel : list str;
  poem_names : list str;
  poem_words : list str
}.

(** The foot a turn of the [kamel] loop takes off a non-empty skeleton:
    its symbols, its name and the number of letters it spans. *)
Definition kamel_foot (rokaz : str) : str * str * nat :=
  if Py.startswith rokaz (u8 "UU-U-")
  then (u8 "UU-U-", u8 "مُتَفَاْعِلُنْ", 14)
  else if Py.startswith rokaz (u8 "--U-")
  then (u8 "--U-", u8 "مُسْتَفْعِلُنْ", 14)
  else (take 1 rokaz, u8 "????", 2).

(** The same for the [rajaz] loop. *)
Definition rajaz_foot (rokaz : str) : str * str * nat :=
  if Py.startswith rokaz (u8 "--U-")
  then (u8 "--U-", u8 "مُسْتَفْعِلُنْ", 14)
  else if Py.startswith rokaz (u8 "U-U-")
  then (u8 "U-U-", u8 "مُتَفْعِلُنْ", 12)
  else if Py.startswith rokaz (u8 "-UU-")
  then (u8 "-UU-", u8 "مُسْتَعِلُنْ", 12)
  else if Py.startswith rokaz (u8 "UUU-")
  then (u8 "UUU-", u8 "مُتَعِلُنْ", 10)
  else (take 1 rokaz, u8 "????", 2).

(** [while rokaz:] with one foot taken off in each turn; [skip] counts
    the symbols of the last foot that are still to be passed over.  The
    result lists (symbols, name, letters) for each foot. *)
Fixpoint feet_loop (foot : str -> str * str * nat) (skip : nat)
         (rokaz : str) (chars_index : nat) (chars : str)
  : list (str * str * str) :=
  match rokaz with
  | [] => []
  | _ :: rokaz' =>
    match skip with
    | S n => feet_loop foot n rokaz' chars_index chars
    | O =>
      let '(tafeela, name, word_len) := foot rokaz in
      (tafeela, name, Py.slice chars chars_index (chars_index + word_len))
        :: feet_loop foot (length tafeela - 1) rokaz'
                     (chars_index + word_len) chars
    end
  end.

(** [None] is the string ['unknown']. *)
Definition _get_tafaeel_for_tafeela_poem (ba7er_name : string)
           (rokaz chars : str) : option PoemResult :=
  if String.eqb ba7er_name "unknown" then None
  else
    let feet :=
      if String.eqb ba7er_name "kamel"
      then feet_loop kamel_foot 0 rokaz 0 chars
      else if String.eqb ba7er_name "rajaz"
      then feet_loop rajaz_foot 0 rokaz 0 chars
      else [] in
    Some {| poem_ba7er := ba7er_name;
            poem_tafa3eel := List.map (fun f => fst (fst f)) feet;
            poem_names := List.map (fun f => snd (fst f)) feet;
            poem_words :=
              List.map (fun f => Py.replace (snd f) (u8 "ى") (u8 "ى "))
                       feet |}.

(** What [analyze_free_verse] returns: the dictionary with ['poemErr'],
    or what [_get_tafaeel_for_tafeela_poem] returned. *)
Inductive FreeVerseResult :=
| poemErr (message : str)
| poem (r : option PoemResult).

(** The class of [\s] in a pattern on text: the code points that
    [str.isspace] accepts. *)
Definition whitespace : list cp :=
  [9; 10; 11; 12; 13; 28; 29; 30; 31; 32; 133; 160; 5760;
   8192; 8193; 8194; 8195; 8196; 8197; 8198; 8199; 8200; 8201; 8202;
   8232; 8233; 8239; 8287; 12288]%N.

(** The patterns [\s+], [\n+] and [\r+]: their escapes are outside the
    fragment that [Re.parse] reads, so they are written as expressions. *)
Definition whitespace_run : Re.pattern := Re.Pattern (Re.Rep whitespace 1) 0.
Definition newline_run : Re.pattern := Re.Pattern (Re.Rep [10%N] 1) 0.
Definition return_run : Re.pattern := Re.Pattern (Re.Rep [13%N] 1) 0.

Definition analyze_free_verse (text : str) : FreeVerseResult :=
  let text := u8 "#" ++ text ++ u8 "#" in
  let text := Re.sub whitespace_run (u8 "#") text in
  let text := Re.sub newline_run (u8 "#") text in
  let text := Re.sub return_run (u8 "#") text in
  let processed_text := normalise text false in
  let processed_text := Py.replace processed_text (u8 "#") (u8 " ") in
  let processed_text := Re.sub (Re.compile " +") [] processed_text in
  let arrodi_written := processed_text in
  let chars := _get_chars_only arrodi_written in
  let harakat := _get_harakat_only arrodi_written in
  let rokaz := _get_rokaz_khoutayt harakat in
  let ba7er_name := _what_tafeela_poem_on rokaz in
  if String.eqb ba7er_name "unknown" then
    poemErr
      (u8 "لم يتم التعرّف على وزن هذه القصيدة للأسف , تأكّد من إدخال نصّ القصيدة بشكل صحيح")
  else poem (_get_tafaeel_for_tafeela_poem ba7er_name rokaz chars).

End Analyzer.

(** ** What the properties are stated with *)

Module Lang.

Import Re.

(** The words of a pattern: what it can match from its first code point
    to its last, whatever the order the matcher tries things in. *)
Inductive lang : regex -> str -> Prop :=
| lang_eps : lang Eps []
| lang_chr c : lang (Chr c) [c]
| lang_cls cs c : In c cs -> lang (Cls cs) [c]
| lang_rep cs lo w :
    Forall (fun c => In c cs) w -> lo <= length w -> lang (Rep cs lo) w
| lang_cat r1 r2 w1 w2 :
    lang r1 w1 -> lang r2 w2 -> lang (Cat r1 r2) (w1 ++ w2)
| lang_alt_l r1 r2 w : lang r1 w -> lang (Alt r1 r2) w
| lang_alt_r r1 r2 w : lang r2 w -> lang (Alt r1 r2) w
| lang_grp i r w : lang r w -> lang (Grp i r) w.

(** The last code point of every word of [r] is [c]. *)
Fixpoint ends_with (c : cp) (r : regex) : bool :=
  match r with
  | Chr c' => (c =? c')%N
  | Cat _ r2 => ends_with c r2
  | Alt r1 r2 => ends_with c r1 && ends_with c r2
  | Grp _ r1 => ends_with c r1
  | _ => false
  end.

(** A pattern between two [%]. *)
Definition anchored (r : regex) : bool :=
  match r with
  | Cat (Chr c) r' => (c =? 37)%N && ends_with 37%N r'
  | _ => false
  end.

End Lang.

Import Analyzer.

(** [pattern] matches [%skeleton%] from its first code point to its
    last. *)
Definition matches_end_to_end (pattern : string) (skeleton : str) : Prop :=
  Lang.lang (Re.expr (Re.compile pattern)) (u8 "%" ++ skeleton ++ u8 "%").

(** The marks and symbols of the skeleton. *)
Definition fatha : cp := 1614%N.
Definition sukun : cp := 1618%N.
Definition short_U : cp := 85%N.
Definition long_dash : cp := 45%N.

(** A skeleton made in one pass over the marks: a fatha followed by a
    sukun gives one [-]; of what is left, a fatha gives [U] and a sukun
    gives [lone_sukun]; any other mark stays. *)
Fixpoint skeleton_map (lone_sukun : cp) (harakat : str) : str :=
  match harakat with
  | [] => []
  | a :: rest =>
    match rest with
    | b :: rest' =>
      if (a =? fatha)%N && (b =? sukun)%N
      then long_dash :: skeleton_map lone_sukun rest'
      else (if (a =? fatha)%N then short_U
            else if (a =? sukun)%N then lone_sukun else a)
             :: skeleton_map lone_sukun rest
    | [] =>
      [if (a =? fatha)%N then short_U
       else if (a =? sukun)%N then lone_sukun else a]
    end
  end.

(** The skeleton as the specification words it: a sukun gives [-]. *)
Definition spec_skeleton (harakat : str) : str :=
  skeleton_map long_dash harakat.

(** The name the scoring loop keeps for a candidate that becomes the
    best one. *)
Definition kept_name (test_rokaz : str) (meter_name pattern : string)
  : string :=
  if String.eqb meter_name "wafer" then
    if sub_match_found pattern test_rokaz then "wafer"%string
    else "hazaj"%string
  else meter_name.

(** A [U-UU-] sub-match within a text, as the specification has it:
    the text holds four feet of wafer in a row, each [U-UU-] or [U---],
    and one of them is [U-UU-]. *)
Definition wafer_foot_found (text : str) : Prop :=
  exists before feet after,
    text = before ++ concat feet ++ after
    /\ length feet = 4
    /\ Forall (fun foot => foot = u8 "U-UU-" \/ foot = u8 "U---") feet
    /\ In (u8 "U-UU-") feet.

(** The verse of the first scenario of the specification. *)
Definition qifa_nabki : str := u8 "قِفَا نَبْكِ مِنْ ذِكْرَى حَبِيبٍ وَمَنْزِلِ".

(** The verses the source analyses in its own demonstration. *)
Definition demo_verses : list str :=
  List.map u8 ["ينادينا"; "يناجينا"; "يداعبنا"]%string.

(** [needle in s] for two strings. *)
Definition contains (s needle : str) : Prop :=
  exists before after, s = before ++ needle ++ after.

(** How an entry of the result of [analyze_rhyme_patterns] stands to the
    verse at its place. *)
Definition entry_of (verse : str) (e : rhyme_entry) : Prop :=
  match e with
  | empty => verse = u8 "empty"
  | analysed _ => verse <> u8 "empty"
  end.

(** ** What the further properties are stated with *)

(** What [re.sub] makes of the runs of the code points of a class: each
    run becomes [new]. *)
Fixpoint squeeze (cs : list cp) (new : str) (in_run : bool) (s : str) : str :=
  match s with
  | [] => []
  | x :: s' =>
    if cp_in x cs
    then (if in_run then [] else new) ++ squeeze cs new true s'
    else x :: squeeze cs new false s'
  end.

(** The text that every public operation hands to the extractor:
    [text.replace('#', ' ')], then [re.sub(r' +', '', text)]. *)
Definition joined (processed_text : str) : str :=
  Re.sub (Re.compile " +") [] (Py.replace processed_text (u8 "#") (u8 " ")).

(** The pronoun endings [_do_eshbaa3_shater] finds in a text: the
    positions, in the list [re.split] returns, of the parts that are one
    of the three pronouns. *)
Definition pronoun_positions_of (text : str) : list nat :=
  pronoun_positions 0
    (Re.split (Re.compile "(هُ|هِ|مُ)#") (u8 "#" ++ text ++ u8 "#")).

(** The result of the classical analysis when no meter is found. *)
Definition unknown_result (processed_text : str) : AnalysisResult :=
  {| shater := joined processed_text;
     arrodi := joined processed_text;
     chars := _get_chars_only (joined processed_text);
     harakat := [];
     rokaz := [];
     ba7er_name := "unknown";
     tafa3eel := [] |}.

(** In the store [h], the row at address [a] ends with ['1'] and has at
    least [m] bits before it. *)
Definition first_row (a m : nat) (h : list (list str)) : Prop :=
  exists pre, h !! a = Some (pre ++ [u8 "1"]) /\ m <= length pre.

(** Two strings agree as far as both go. *)
Definition agree (current pattern : str) : Prop :=
  take (length pattern) current = take (length current) pattern.

(** The report of a foot for which there is no skeleton at all. *)
Definition empty_err : FootReport :=
  {| status := "err"; taf3eela := []; foot_chars := []; errs := Some [] |}.

(** A computation that can end with [IndexError] only. *)
Definition only_index_error {A} (m : result A) : Prop :=
  forall e, m = Raise e -> e = IndexError.

(** The marks that the tanwin and shadda pass does away with. *)
Definition shadda : cp := 1617%N.
Definition tanwin_fath : cp := 1611%N.
Definition tanwin_damm : cp := 1612%N.
Definition tanwin_kasr : cp := 1613%N.

(** The symbols a skeleton can hold: [U], [-], and the marks that
    [_get_rokaz_khoutayt] has no replacement for. *)
Definition skeleton_symbols : list cp :=
  [short_U; long_dash; shadda; tanwin_fath; tanwin_damm; tanwin_kasr].

(** An element of the list [_str_to_chars] returns: a [#] on its own, or
    one or two code points that are not [#]. *)
Definition char_element (c : str) : Prop :=
  c = [35%N] \/ (~ In 35%N c /\ (length c = 1 \/ length c = 2)).

(** What [_get_harakat_only] and then [_get_rokaz_khoutayt] make of one
    mark that is not part of a pair fatha, sukun. *)
Definition symbol_of (mark : cp) : cp :=
  let c := if (1616 =? mark)%N then fatha else mark in
  let c := if (1615 =? c)%N then fatha else c in
  let c := if (fatha =? c)%N then short_U else c in
  if (sukun =? c)%N then short_U else c.

(** The words of a pattern that has no repetition of a class, listed. *)
Fixpoint words (r : Re.regex) : list str :=
  match r with
  | Re.Eps => [[]]
  | Re.Chr c => [[c]]
  | Re.Cls cs => List.map (fun c => [c]) cs
  | Re.Rep _ _ => []
  | Re.Cat r1 r2 =>
    flat_map (fun w1 => List.map (app w1) (words r2)) (words r1)
  | Re.Alt r1 r2 => words r1 ++ words r2
  | Re.Grp _ r1 => words r1
  end.

Fixpoint finite (r : Re.regex) : bool :=
  match r with
  | Re.Rep _ _ => false
  | Re.Cat r1 r2 | Re.Alt r1 r2 => finite r1 && finite r2
  | Re.Grp _ r1 => finite r1
  | _ => true
  end.

(** The skeletons a pattern of [METER_PATTERNS] stands for: its words
    without the [%] at either end. *)
Definition skeletons_of (pattern : string) : list str :=
  List.map (fun w => List.removelast (List.tl w))
           (words (Re.expr (Re.compile pattern))).

(** The length of a skeleton is between [lo] and [hi]. *)
Definition within (lo hi : nat) (skeleton : str) : bool :=
  (lo <=? length skeleton) && (length skeleton <=? hi).

(** * Proofs *)

Import Analyzer.
(** ** Strings *)

Lemma str_eqb_eq a b : str_eqb a b = true <-> a = b.
Proof. unfold str_eqb. apply bool_decide_eq_true. Qed.

Lemma str_eqb_refl a : str_eqb a a = true.
Proof. by apply str_eqb_eq. Qed.

Lemma str_eqb_neq a b : str_eqb a b = false <-> a <> b.
Proof. unfold str_eqb. apply bool_decide_eq_false. Qed.

Lemma cp_in_In c cs : cp_in c cs = true <-> In c cs.
Proof.
  unfold cp_in. rewrite existsb_exists. split.
  - intros (x & Hx & E). apply N.eqb_eq in E. by subst.
  - intros H. exists c. split; [done | apply N.eqb_refl].
Qed.

(** ** The matcher and the words of a pattern *)

Section ReFacts.

Import Re Lang.

Lemma class_run_le cs s : class_run cs s <= length s.
Proof.
  induction s as [|c s IH]; simpl; [lia|].
  destruct (cp_in c cs); simpl; lia.
Qed.

Lemma class_run_take cs s j :
  j <= class_run cs s -> Forall (fun c => In c cs) (take j s).
Proof.
  revert j. induction s as [|c s IH]; intros j Hj; simpl in *.
  - rewrite take_nil. constructor.
  - destruct j as [|j]; [constructor|].
    destruct (cp_in c cs) eqn:E; [|lia].
    simpl. constructor; [by apply cp_in_In | apply IH; lia].
Qed.

Lemma class_run_app cs w s :
  Forall (fun c => In c cs) w -> length w <= class_run cs (w ++ s).
Proof.
  induction 1 as [|c w Hc _ IH]; simpl; [lia|].
  apply cp_in_In in Hc. rewrite Hc. lia.
Qed.

Section BackOff.
Context {A : Type} (k : nat -> option A) (lo : nat).

Lemma back_off_sound d :
  back_off k lo d <> None ->
  exists j, lo <= j <= lo + d /\ k j <> None.
Proof.
  induction d as [|d IH]; simpl.
  - destruct (k (lo + 0)) eqn:E; [|done].
    intros _. exists (lo + 0). split; [lia | congruence].
  - destruct (k (lo + S d)) eqn:E.
    + intros _. exists (lo + S d). split; [lia | congruence].
    + intros H. destruct (IH H) as (j & Hj & Hk).
      exists j. split; [lia | done].
Qed.

Lemma back_off_complete d j :
  lo <= j <= lo + d -> k j <> None -> back_off k lo d <> None.
Proof.
  induction d as [|d IH]; simpl; intros Hj Hk.
  - replace (lo + 0) with j by lia. by destruct (k j).
  - destruct (k (lo + S d)) eqn:E; [done|].
    apply IH; [|done].
    destruct (decide (j = lo + S d)) as [->|]; [congruence | lia].
Qed.
End BackOff.

(** The matcher finds a match exactly when some prefix of the text is a
    word of the pattern after which the continuation succeeds, as long
    as that success does not depend on the captures. *)
Lemma run_spec {A : Type} (r : regex) :
  forall (P : str -> Prop) (k : str -> caps -> option A),
    (forall s g, k s g <> None <-> P s) ->
    forall s g,
      run r s g k <> None <->
      exists w s', s = w ++ s' /\ lang r w /\ P s'.
Proof.
  induction r as [|c|cs|cs lo|r1 IH1 r2 IH2|r1 IH1 r2 IH2|i r IH];
    intros P k Hk s g; simpl.
  - rewrite Hk. split.
    + intros H. exists [], s. repeat split; [constructor | done].
    + intros (w & s' & -> & Hw & HP). inversion Hw; subst. done.
  - destruct s as [|x s].
    + split; [done|]. intros (w & s' & E & Hw & _).
      inversion Hw; subst. done.
    + destruct (N.eqb_spec x c) as [->|Hne].
      * rewrite Hk. split.
        -- intros H. exists [c], s. repeat split; [constructor | done].
        -- intros (w & s' & E & Hw & HP). inversion Hw; subst.
           simpl in E. by injection E as ->.
      * split; [done|]. intros (w & s' & E & Hw & _).
        inversion Hw; subst. simpl in E. congruence.
  - destruct s as [|x s].
    + split; [done|]. intros (w & s' & E & Hw & _).
      inversion Hw; subst. done.
    + destruct (cp_in x cs) eqn:Hx.
      * rewrite Hk. split.
        -- intros H. exists [x], s.
           repeat split; [constructor; by apply cp_in_In | done].
        -- intros (w & s' & E & Hw & HP). inversion Hw; subst.
           simpl in E. by injection E as _ ->.
      * split; [done|]. intros (w & s' & E & Hw & _).
        inversion Hw; subst. simpl in E. injection E as -> _.
        apply cp_in_In in H0. congruence.
  - destruct (Nat.leb_spec lo (class_run cs s)) as [Hlo|Hlo].
    + split.
      * intros H. apply back_off_sound in H as (j & Hj & Hkj).
        exists (take j s), (drop j s). repeat split.
        -- by rewrite take_drop.
        -- constructor; [apply class_run_take; lia|].
           rewrite length_take. pose proof (class_run_le cs s). lia.
        -- by apply (Hk _ g).
      * intros (w & s' & -> & Hw & HP). inversion Hw; subst.
        apply (back_off_complete _ _ _ (length w)).
        -- pose proof (class_run_app cs w s' H1). lia.
        -- rewrite drop_app_length. by apply Hk.
    + split; [done|]. intros (w & s' & -> & Hw & _).
      inversion Hw; subst.
      pose proof (class_run_app cs w s' H1). lia.
  - rewrite (IH1 (fun s1 => exists w2 s', s1 = w2 ++ s' /\ lang r2 w2 /\ P s')
                 (fun s' g' => run r2 s' g' k)).
    + split.
      * intros (w1 & s1 & -> & H1 & w2 & s' & -> & H2 & HP).
        exists (w1 ++ w2), s'. rewrite <- app_assoc.
        repeat split; [by constructor | done].
      * intros (w & s' & -> & Hw & HP). inversion Hw; subst.
        exists w1, (w2 ++ s'). rewrite <- app_assoc.
        repeat split; [done|]. by exists w2, s'.
    + intros s1 g1. by apply IH2.
  - destruct (run r1 s g k) eqn:E1.
    + split; [|done]. intros _.
      assert (Hr : run r1 s g k <> None) by congruence.
      apply (IH1 P k Hk) in Hr as (w & s' & -> & Hw & HP).
      exists w, s'. repeat split; [by apply lang_alt_l | done].
    + rewrite (IH2 P k Hk). split.
      * intros (w & s' & -> & Hw & HP).
        exists w, s'. repeat split; [by apply lang_alt_r | done].
      * intros (w & s' & -> & Hw & HP). inversion Hw; subst.
        -- exfalso. assert (Hr : run r1 (w ++ s') g k <> None).
           { apply (IH1 P k Hk). by exists w, s'. }
           done.
        -- by exists w, s'.
  - rewrite (IH P (fun s' g' => k s' ((i, take (length s - length s') s) :: g'))).
    + split; intros (w & s' & -> & Hw & HP); exists w, s';
        repeat split; try done; [by constructor | by inversion Hw].
    + intros s1 g1. apply Hk.
Qed.

Lemma re_match_spec p s :
  re_match p s = true <->
  exists w s', s = w ++ s' /\ lang (expr p) w.
Proof.
  unfold re_match, match_at.
  pose proof (run_spec (expr p) (fun _ => True)
                       (fun s' g => Some (s', g))) as H.
  specialize (H ltac:(intros; split; [done | congruence]) s []).
  destruct (run _ _ _ _) eqn:E.
  - split; [|done]. intros _.
    destruct H as [H _]. destruct (H ltac:(congruence)) as (w & s' & ? & ? & _).
    by exists w, s'.
  - split; [done|]. intros (w & s' & ? & ?).
    destruct H as [_ H]. exfalso. apply H; [|done]. by exists w, s'.
Qed.

Lemma ends_with_spec c r w :
  ends_with c r = true -> lang r w -> exists w', w = w' ++ [c].
Proof.
  intros He Hw. induction Hw; simpl in He; try done.
  - apply N.eqb_eq in He as ->. by exists [].
  - destruct (IHHw2 He) as (w' & ->). exists (w1 ++ w'). by rewrite app_assoc.
  - apply andb_true_iff in He as [He _]. auto.
  - apply andb_true_iff in He as [_ He]. auto.
  - auto.
Qed.

(** A word of an anchored pattern that starts the text [%skeleton%] is
    the whole of it, when the skeleton has no [%]. *)
Lemma anchored_prefix_whole r w s' (skeleton : str) :
  anchored r = true -> ~ In 37%N skeleton ->
  lang r w -> 37%N :: skeleton ++ [37%N] = w ++ s' ->
  s' = [].
Proof.
  intros Ha Hno Hw E.
  destruct r; try done. destruct r1; try done. simpl in Ha.
  apply andb_true_iff in Ha as [Hc He]. apply N.eqb_eq in Hc as ->.
  inversion Hw; subst. inversion H1; subst.
  destruct (ends_with_spec _ _ _ He H3) as (w' & ->).
  simpl in E. injection E as E.
  rewrite <- app_assoc in E. simpl in E.
  clear -Hno E. revert w' E. induction skeleton as [|x sk IH]; intros w' E.
  - destruct w' as [|y w']; simpl in E.
    + by injection E.
    + injection E as <- E. by destruct w'.
  - destruct w' as [|y w']; simpl in E.
    + injection E as -> _. exfalso. apply Hno. by left.
    + injection E as <- E. apply (IH ltac:(intros ?; apply Hno; by right) w' E).
Qed.
End ReFacts.

(** ** The meter matcher *)

Section MeterMatcher.
Import Re Lang.
Local Open Scope string_scope.
Local Open Scope list_scope.

Variable skeleton : str.
Hypothesis no_percent : ~ In 37%N skeleton.

Lemma re_match_end_to_end pattern :
  anchored (expr (compile pattern)) = true ->
  re_match (compile pattern) (u8 "%" ++ skeleton ++ u8 "%") = true
  <-> matches_end_to_end pattern skeleton.
Proof using no_percent.
  intros Ha. rewrite re_match_spec. unfold matches_end_to_end. split.
  - intros (w & s' & E & Hw).
    pose proof (anchored_prefix_whole _ _ _ _ Ha no_percent Hw E) as ->.
    rewrite app_nil_r in E. by rewrite E.
  - intros Hw. eexists _, []. split; [|exact Hw]. by rewrite app_nil_r.
Qed.

Lemma first_match_spec table M :
  Forall (fun e => anchored (expr (compile (snd e))) = true) table ->
  Forall (fun e => fst e <> "unknown") table ->
  first_match table (u8 "%" ++ skeleton ++ u8 "%") = M ->
  (M <> "unknown" ->
   exists before pattern after,
     table = before ++ (M, pattern) :: after /\
     matches_end_to_end pattern skeleton /\
     Forall (fun e => ~ matches_end_to_end (snd e) skeleton) before)
  /\ (M = "unknown" <->
      Forall (fun e => ~ matches_end_to_end (snd e) skeleton) table).
Proof using no_percent.
  induction table as [|[name pattern] table IH]; intros Ha Hn; simpl.
  - intros <-. split; [done|]. split; [constructor | done].
  - inversion Ha as [|? ? Ha1 Ha2]; subst.
    inversion Hn as [|? ? Hn1 Hn2]; subst. simpl in Ha1, Hn1.
    pose proof (re_match_end_to_end pattern Ha1) as Hm.
    destruct (re_match (compile pattern) _) eqn:E.
    + intros <-. split.
      * intros _. exists [], pattern, table.
        split; [done|]. split; [by apply Hm | constructor].
      * split; [intros HM; by destruct Hn1|].
        intros H. inversion H as [|? ? H2 _]; subst.
        exfalso. apply H2. by apply Hm.
    + assert (Hnot : ~ matches_end_to_end pattern skeleton).
      { intros H. apply Hm in H. congruence. }
      intros HM. destruct (IH Ha2 Hn2 HM) as [IHa IHb]. split.
      * intros HM'. destruct (IHa HM') as (before & p & after & -> & Hp & Hb).
        exists ((name, pattern) :: before), p, after.
        split; [done|]. split; [done | by constructor].
      * rewrite IHb. split; [by constructor | by inversion 1].
Qed.
End MeterMatcher.

Lemma Forall_of_forallb {A} (f : A -> bool) (P : A -> Prop) (l : list A) :
  (forall x, f x = true -> P x) -> forallb f l = true -> Forall P l.
Proof.
  intros Hf. induction l as [|x l IH]; simpl; [constructor|].
  intros H. apply andb_true_iff in H as [Hx Hl]. constructor; auto.
Qed.

(** C2.  For every skeleton without [%]: when [_get_ba7er] returns a
    meter other than ["unknown"], that meter is an entry of
    [METER_PATTERNS] whose pattern matches [%skeleton%] from its first
    code point to its last, and no entry declared before it does; and
    ["unknown"] is returned exactly when no entry of the table matches
    end to end. *)
Theorem get_ba7er_first_end_to_end_match (skeleton : str) :
  ~ In 37%N skeleton ->
  (_get_ba7er skeleton <> "unknown"%string ->
   exists before pattern after,
     METER_PATTERNS = before ++ (_get_ba7er skeleton, pattern) :: after /\
     matches_end_to_end pattern skeleton /\
     Forall (fun e => ~ matches_end_to_end (snd e) skeleton) before)
  /\ (_get_ba7er skeleton = "unknown"%string <->
      Forall (fun e => ~ matches_end_to_end (snd e) skeleton) METER_PATTERNS).
Proof.
  intros Hno. unfold _get_ba7er.
  apply (first_match_spec skeleton Hno METER_PATTERNS); [| |done].
  - apply (Forall_of_forallb
             (fun e => Lang.anchored (Re.expr (Re.compile (snd e)))));
      [done | by vm_compute].
  - apply (Forall_of_forallb
             (fun e => negb (String.eqb (fst e) "unknown")));
      [|by vm_compute].
    intros e He E. rewrite E in He. done.
Qed.

(** The theorem at a [taweel] skeleton. *)
Lemma get_ba7er_first_end_to_end_match_witness :
  ~ In 37%N (u8 "U--U---U--U-U-") /\
  _get_ba7er (u8 "U--U---U--U-U-") = "taweel"%string /\
  exists before pattern after,
    METER_PATTERNS
    = before ++ (_get_ba7er (u8 "U--U---U--U-U-"), pattern) :: after /\
    matches_end_to_end pattern (u8 "U--U---U--U-U-") /\
    Forall (fun e => ~ matches_end_to_end (snd e) (u8 "U--U---U--U-U-")) before.
Proof.
  assert (Hno : ~ In 37%N (u8 "U--U---U--U-U-")).
  { vm_compute. intros H. repeat (destruct H as [H|H]; [discriminate H|]). exact H. }
  split; [exact Hno|]. split; [reflexivity|].
  apply (get_ba7er_first_end_to_end_match (u8 "U--U---U--U-U-") Hno).
  vm_compute. discriminate.
Defined.

(** ** The skeleton *)

Section Replace.
Import Py.

Lemma replace_single (a b : cp) (s : str) :
  replace s [a] [b] = List.map (fun c => if (a =? c)%N then b else c) s.
Proof.
  unfold replace. induction s as [|c s IH]; simpl; [done|].
  unfold startswith. simpl. destruct (a =? c)%N; simpl; by rewrite IH.
Qed.

Lemma list_ind2 {A} (P : list A -> Prop) :
  P [] -> (forall a, P [a]) ->
  (forall a b l, P l -> P (b :: l) -> P (a :: b :: l)) ->
  forall l, P l.
Proof.
  intros H0 H1 H2 l.
  assert (H : P l /\ forall a, P (a :: l)); [|apply H].
  induction l as [|b l [IHa IHb]]; split; auto.
Qed.
End Replace.

Section ReplacePair.
Import Py.
Variables f k d : cp.

Lemma replace_pair_one a : replace_from [f; k] [d] 0 [a] = [a].
Proof. simpl. unfold startswith. simpl. by destruct (f =? a)%N. Qed.

Lemma replace_pair_two a b rest :
  replace_from [f; k] [d] 0 (a :: b :: rest)
  = if (a =? f)%N && (b =? k)%N
    then d :: replace_from [f; k] [d] 0 rest
    else a :: replace_from [f; k] [d] 0 (b :: rest).
Proof.
  change (replace_from [f; k] [d] 0 (a :: b :: rest))
    with (if startswith (a :: b :: rest) [f; k]
          then d :: replace_from [f; k] [d] 0 rest
          else a :: replace_from [f; k] [d] 0 (b :: rest)).
  unfold startswith. simpl.
  rewrite (N.eqb_sym f a), (N.eqb_sym k b).
  destruct (a =? f)%N; [|done]. by destruct (b =? k)%N.
Qed.
End ReplacePair.

Lemma rokaz_khoutayt_unfold (harakat : str) :
  _get_rokaz_khoutayt harakat
  = Py.replace
      (Py.replace (Py.replace harakat [fatha; sukun] [long_dash])
                  [fatha] [short_U])
      [sukun] [short_U].
Proof. reflexivity. Qed.

(** What the two single replacements make of one code point. *)
Lemma symbol_of_mark (a : cp) :
  (let c := if (fatha =? a)%N then short_U else a in
   if (sukun =? c)%N then short_U else c)
  = if (a =? fatha)%N then short_U
    else if (a =? sukun)%N then short_U else a.
Proof.
  unfold fatha, sukun, short_U. cbv zeta.
  rewrite (N.eqb_sym 1614 a).
  destruct (N.eqb_spec a 1614) as [->|Ha]; [reflexivity|].
  by rewrite (N.eqb_sym 1618 a).
Qed.

(** C1, amended.  For every harakat string, the skeleton that
    [_get_rokaz_khoutayt] makes maps each fatha followed by a sukun to
    one [-], each other fatha to [U], and each other sukun to [U], not to
    [-]; every other mark is left as it is. *)
Theorem rokaz_khoutayt_one_pass (harakat : str) :
  _get_rokaz_khoutayt harakat = skeleton_map short_U harakat.
Proof.
  rewrite rokaz_khoutayt_unfold, !replace_single.
  unfold Py.replace.
  induction harakat as [|a|a b rest IH1 IH2] using list_ind2.
  - reflexivity.
  - rewrite replace_pair_one.
    change (skeleton_map short_U [a])
      with [if (a =? fatha)%N then short_U
            else if (a =? sukun)%N then short_U else a].
    rewrite <- symbol_of_mark. reflexivity.
  - change (skeleton_map short_U (a :: b :: rest))
      with (if (a =? fatha)%N && (b =? sukun)%N
            then long_dash :: skeleton_map short_U rest
            else (if (a =? fatha)%N then short_U
                  else if (a =? sukun)%N then short_U else a)
                   :: skeleton_map short_U (b :: rest)).
    rewrite <- IH1, <- IH2, replace_pair_two, <- symbol_of_mark.
    by destruct ((a =? fatha)%N && (b =? sukun)%N).
Qed.

(** C1 as stated fails: the extractor gives the harakat "sukun, fatha"
    for the text "ا ب ", and the sukun, which follows no fatha, is
    rendered as [U], where the specification has [-]. *)
Lemma rokaz_khoutayt_lone_sukun :
  let harakat := _get_harakat_only (u8 "ا ب ") in
  harakat = [sukun; fatha]
  /\ _get_rokaz_khoutayt harakat = u8 "UU"
  /\ spec_skeleton harakat = u8 "-U"
  /\ _get_rokaz_khoutayt harakat <> spec_skeleton harakat.
Proof. vm_compute. repeat split; discriminate. Qed.

(** ** Two code points are never one letter *)

Lemma listed_are_single :
  Forall (fun x : str => length x = 1) (ALPHABET ++ HARAKAT).
Proof. vm_compute. repeat constructor. Qed.

Lemma str_in_spec x xs : str_in x xs = true <-> In x xs.
Proof.
  unfold str_in. rewrite existsb_exists. split.
  - intros (y & Hy & E). apply str_eqb_eq in E. by subst.
  - intros H. exists x. split; [done | apply str_eqb_refl].
Qed.

(** An element of two code points, as [_str_to_chars] makes them, is in
    neither inventory. *)
Lemma pair_not_listed (a b : cp) :
  str_in [a; b] ALPHABET = false /\ str_in [a; b] HARAKAT = false.
Proof.
  pose proof listed_are_single as H. apply Forall_app in H as [HA HH].
  split; apply not_true_is_false; intros E; apply str_in_spec in E.
  - rewrite Forall_forall in HA. apply list_elem_of_In in E.
    by specialize (HA _ E).
  - rewrite Forall_forall in HH. apply list_elem_of_In in E.
    by specialize (HH _ E).
Qed.

Lemma replace_absent (s : str) (a b : cp) :
  ~ In a s -> Py.replace s [a] [b] = s.
Proof.
  intros H. rewrite replace_single. induction s as [|c s IH]; simpl; [done|].
  destruct (N.eqb_spec a c) as [->|_].
  - exfalso. apply H. by left.
  - f_equal. apply IH. intros ?. apply H. by right.
Qed.

Lemma harakat_loop_pairs (text : str) :
  ~ In 35%N text -> harakat_loop (pair_up text) = [].
Proof.
  induction text as [|a|a b rest IH1 IH2] using list_ind2; intros Hno.
  - reflexivity.
  - reflexivity.
  - assert (Ha : (a =? 35)%N = false).
    { apply N.eqb_neq. intros ->. apply Hno. by left. }
    assert (Hb : (b =? 35)%N = false).
    { apply N.eqb_neq. intros ->. apply Hno. right. by left. }
    change (pair_up (a :: b :: rest))
      with (if negb (a =? 35)%N && negb (b =? 35)%N
            then [a; b] :: pair_up rest
            else [a] :: pair_up (b :: rest)).
    rewrite Ha, Hb. simpl negb. simpl andb. cbv iota.
    assert (Hrest : harakat_loop (pair_up rest) = []).
    { apply IH1. intros ?. apply Hno. right. by right. }
    destruct (pair_up rest) as [|next more] eqn:E; [reflexivity|].
    change (harakat_loop ([a; b] :: next :: more))
      with ((if str_in [a; b] HARAKAT then [[a; b]]
             else if str_in [a; b] ALPHABET && negb (str_eqb [a; b] hash)
                     && negb (str_in next HARAKAT)
             then
               if negb (str_in [a; b] [u8 "ى"; u8 "ا"]) then [u8 "َ"]
               else [u8 "ْ"]
             else if str_in [a; b] ALPHABET && negb (str_eqb [a; b] hash)
                     && str_in next HARAKAT
             then [next]
             else [])
            ++ harakat_loop (next :: more)).
    destruct (pair_not_listed a b) as [-> ->]. simpl. exact Hrest.
Qed.

(** A text without [#] and without spaces, which is what every public
    operation hands to the extractor, has no harakat, so its skeleton is
    empty and no meter matches it. *)
Lemma harakat_of_joined_text (text : str) :
  ~ In 35%N text -> ~ In 32%N text ->
  _get_harakat_only text = []
  /\ _get_rokaz_khoutayt (_get_harakat_only text) = []
  /\ _get_ba7er (_get_rokaz_khoutayt (_get_harakat_only text))
     = "unknown"%string.
Proof.
  intros Hh Hs.
  assert (Ec : _str_to_chars text = pair_up text).
  { unfold _str_to_chars. f_equal. apply (replace_absent text 32%N 35%N Hs). }
  assert (E : _get_harakat_only text = []).
  { unfold _get_harakat_only.
    rewrite Ec, (harakat_loop_pairs text Hh). reflexivity. }
  rewrite E. split; [done|]. split; by vm_compute.
Qed.


(** ** The free-verse engine *)

Section Scoring.
Local Open Scope string_scope.
Variable test_rokaz : str.

Lemma score_loop_no_better candidates max_matches best_meter :
  Forall (fun e => score (snd e) test_rokaz <= max_matches) candidates ->
  score_loop candidates test_rokaz max_matches best_meter = best_meter.
Proof.
  induction 1 as [|[n p] l Hx _ IH]; simpl; [done|].
  simpl in Hx.
  destruct (Nat.ltb_spec max_matches (score p test_rokaz)); [lia | done].
Qed.

Lemma score_loop_best before meter_name pattern after max_matches best_meter :
  max_matches < score pattern test_rokaz ->
  Forall (fun e => score (snd e) test_rokaz < score pattern test_rokaz)
         before ->
  Forall (fun e => score (snd e) test_rokaz <= score pattern test_rokaz)
         after ->
  score_loop (before ++ (meter_name, pattern) :: after) test_rokaz
             max_matches best_meter
  = kept_name test_rokaz meter_name pattern.
Proof.
  intros Hm Hb Ha. revert max_matches best_meter Hm.
  induction Hb as [|[n p] l Hx _ IH]; intros max_matches best_meter Hm; simpl.
  - destruct (Nat.ltb_spec max_matches (score pattern test_rokaz)); [|lia].
    by apply score_loop_no_better.
  - simpl in Hx.
    destruct (Nat.ltb_spec max_matches (score p test_rokaz));
      by apply IH.
Qed.
End Scoring.

(** What the scoring loop returns when the candidate ["wafer"] has the
    best score: the name is kept or changed by the test of the code,
    [U-UU-] among the values of [re.findall]. *)
Lemma wafer_kept_or_downgraded (rokaz : str)
      (candidates before after : list (string * string)) (pattern : string) :
  tafeela_base (opening rokaz) = Some candidates ->
  candidates = before ++ ("wafer"%string, pattern) :: after ->
  0 < score pattern (scored_prefix rokaz) ->
  Forall (fun e => score (snd e) (scored_prefix rokaz)
                   < score pattern (scored_prefix rokaz)) before ->
  Forall (fun e => score (snd e) (scored_prefix rokaz)
                   <= score pattern (scored_prefix rokaz)) after ->
  _what_tafeela_poem_on rokaz
  = if sub_match_found pattern (scored_prefix rokaz)
    then "wafer"%string else "hazaj"%string.
Proof.
  intros Hc -> Hpos Hb Ha. unfold _what_tafeela_poem_on.
  cbv zeta. rewrite Hc.
  by rewrite (score_loop_best _ before "wafer" pattern after 0 "unknown").
Qed.

(** C8, at two failing inputs.  For the skeleton [U-UU-U---U---U---],
    and for the longer one that goes on with [U---U-UU-U---U-UU-]: the
    scored prefix is the first 21 symbols; the candidates of the opening
    are wafer and mutakareb, in this order; wafer is the highest-scoring
    one, with one match against none; the scored prefix holds four feet
    of wafer in a row, the first of them [U-UU-]; yet [re.findall] gives
    the last foot of the match only, [U---], and
    [_what_tafeela_poem_on] returns ["hazaj"], not ["wafer"].  For the
    longer skeleton a [U-UU-] is among the values of [re.findall] on the
    whole of it, but not on its first 21 symbols. *)
Theorem wafer_foot_found_yet_hazaj :
  let wafer := "(U-UU-|U---){4}"%string in
  let mutakareb := "(U--|U-U|U-){7}"%string in
  let short_rokaz := u8 "U-UU-U---U---U---" in
  let long_rokaz := u8 "U-UU-U---U---U---U---U-UU-U---U-UU-" in
  (scored_prefix short_rokaz = take 21 short_rokaz
   /\ tafeela_base (opening short_rokaz)
      = Some [("wafer"%string, wafer); ("mutakareb"%string, mutakareb)]
   /\ score wafer (scored_prefix short_rokaz) = 1
   /\ score mutakareb (scored_prefix short_rokaz) = 0
   /\ wafer_foot_found (scored_prefix short_rokaz)
   /\ Re.findall (Re.compile wafer) (scored_prefix short_rokaz) = [u8 "U---"]
   /\ _what_tafeela_poem_on short_rokaz = "hazaj"%string)
  /\ (scored_prefix long_rokaz = take 21 long_rokaz
      /\ take 21 long_rokaz = u8 "U-UU-U---U---U---U---"
      /\ tafeela_base (opening long_rokaz)
         = Some [("wafer"%string, wafer); ("mutakareb"%string, mutakareb)]
      /\ score wafer (scored_prefix long_rokaz) = 1
      /\ score mutakareb (scored_prefix long_rokaz) = 0
      /\ wafer_foot_found (scored_prefix long_rokaz)
      /\ Re.findall (Re.compile wafer) (scored_prefix long_rokaz)
         = [u8 "U---"]
      /\ Re.findall (Re.compile wafer) long_rokaz = [u8 "U---"; u8 "U-UU-"]
      /\ _what_tafeela_poem_on long_rokaz = "hazaj"%string).
Proof.
  cbv zeta. split.
  - split; [by vm_compute|]. split; [by vm_compute|].
    split; [by vm_compute|]. split; [by vm_compute|].
    split; [|split; by vm_compute].
    exists [], [u8 "U-UU-"; u8 "U---"; u8 "U---"; u8 "U---"], [].
    split; [by vm_compute|]. split; [done|].
    split; [|by left].
    constructor; [by left|]. constructor; [by right|].
    constructor; [by right|]. constructor; [by right | constructor].
  - split; [by vm_compute|]. split; [by vm_compute|].
    split; [by vm_compute|]. split; [by vm_compute|].
    split; [by vm_compute|].
    split; [|split; [by vm_compute|]; split; by vm_compute].
    exists [], [u8 "U-UU-"; u8 "U---"; u8 "U---"; u8 "U---"], (u8 "U---").
    split; [by vm_compute|]. split; [done|].
    split; [|by left].
    constructor; [by left|]. constructor; [by right|].
    constructor; [by right|]. constructor; [by right | constructor].
Qed.

(** ** The wizard loop ends *)

Section Wizard.
Variables patterns names : list str.
Hypothesis non_empty : Forall (fun p => p <> []) patterns.

Lemma try_alternatives_shortens todo st report st' :
  Forall (fun p => p <> []) todo ->
  try_alternatives todo patterns names st = Ok (Some (report, st')) ->
  length (w_rokaz st') < length (w_rokaz st).
Proof using Type.
  induction 1 as [|pattern todo Hp _ IH]; simpl; [done|].
  destruct (find_name 0 patterns names _); simpl; [|done].
  destruct (str_eqb pattern _) eqn:E; [|exact IH].
  intros [= <- <-]. simpl.
  apply str_eqb_eq in E.
  assert (Hlen : length pattern <= length (w_rokaz st)).
  { rewrite E at 1. rewrite length_take. lia. }
  rewrite length_drop. destruct pattern; [done | simpl in *; lia].
Qed.

(** Each turn of the loop shortens the skeleton that is left, whether
    an alternative matches or not. *)
Lemma wizard_step_shortens st report st' :
  w_rokaz st <> [] ->
  wizard_step patterns names st = Ok (report, st') ->
  length (w_rokaz st') < length (w_rokaz st).
Proof using non_empty.
  intros Hne. unfold wizard_step.
  destruct (try_alternatives patterns patterns names st) as [[[r s]|]|] eqn:E;
    simpl; [| |done].
  - intros [= <- <-]. by eapply try_alternatives_shortens.
  - unfold index. destruct (patterns !! 0) as [first|] eqn:Ei; simpl; [|done].
    pose proof (Forall_lookup_1 _ _ _ _ non_empty Ei) as Hfirst.
    destruct (find_name 0 _ names _); simpl; [|done].
    intros [= <- <-]. simpl. rewrite length_drop.
    destruct first; [done|]. destruct (w_rokaz st); [done | simpl; lia].
Qed.

Lemma wizard_loop_ends n :
  forall st results,
    length (w_rokaz st) <= n ->
    exists r, forall fuel,
        length (w_rokaz st) <= fuel ->
        wizard_loop fuel patterns names st results = Some r.
Proof using non_empty.
  induction n as [|n IH]; intros st results Hn.
  - exists (Ok results). intros fuel _.
    destruct fuel, (w_rokaz st) eqn:E; simpl; rewrite ?E; simpl in *;
      try done; lia.
  - destruct (w_rokaz st) as [|c rokaz] eqn:E.
    + exists (Ok results). intros fuel _. destruct fuel; simpl; by rewrite E.
    + destruct (wizard_step patterns names st) as [[report st']|e] eqn:Es.
      * pose proof (wizard_step_shortens st report st'
                      ltac:(by rewrite E) Es) as Hlt.
        rewrite E in Hlt. simpl in Hlt, Hn.
        destruct (IH st' (results ++ [report]) ltac:(lia)) as [r Hr].
        exists r. intros [|fuel] Hf; simpl in Hf; [lia|].
        simpl. rewrite E, Es. apply Hr. lia.
      * exists (Raise e). intros [|fuel] Hf; simpl in Hf; [lia|].
        simpl. by rewrite E, Es.
Qed.
End Wizard.

(** C10.  For every text and every list of expected patterns that are
    all non-empty, each turn of the loop of [wizard_analysis_free_verse]
    leaves a strictly shorter skeleton, whether an alternative matched or
    not, and the operation ends: with as many turns as the skeleton has
    symbols it returns a result (a list of reports or an exception). *)
Theorem wizard_free_verse_terminates (text : str) (rule_patterns rule_names : list str) :
  Forall (fun p => p <> []) rule_patterns ->
  (forall st report st',
      w_rokaz st <> [] ->
      wizard_step rule_patterns rule_names st = Ok (report, st') ->
      length (w_rokaz st') < length (w_rokaz st))
  /\ exists r, forall fuel,
       length (w_rokaz (wizard_start text)) <= fuel ->
       wizard_analysis_free_verse fuel text rule_patterns rule_names = Some r.
Proof.
  intros Hne. split.
  - by apply wizard_step_shortens.
  - by apply (wizard_loop_ends rule_patterns rule_names Hne
                (length (w_rokaz (wizard_start text)))).
Qed.

(** ** The ishbaa search *)

(** C3, at a failing input.  With two pronoun endings the table that
    [_get_truth_values] builds is not the four subsets of two decisions:
    its rows are two shared lists of three bits, and the search raises
    [IndexError] on the first state, before any variant is tried. *)
Theorem eshbaa3_two_pronouns_raises :
  let text := u8 "لَهُ#بِهِ" in
  pronoun_positions 0 (Re.split (Re.compile "(هُ|هِ|مُ)#")
                                (u8 "#" ++ text ++ u8 "#")) = [1; 3]
  /\ (exists table h,
         _get_truth_values 2 [] = Ok (table, h)
         /\ rows table h
            = List.map (List.map u8)
                [ ["0"; "1"; "1"]; ["0"; "1"; "0"];
                  ["0"; "1"; "1"]; ["0"; "1"; "0"] ]%string)
  /\ _do_eshbaa3_shater text = Raise IndexError.
Proof.
  split; [by vm_compute|]. split; [|by vm_compute].
  eexists _, _. split; [by vm_compute|]. by vm_compute.
Qed.

(** ** The rhyme analyser *)

(** C4, at a failing input.  [analyze_rhyme_patterns] raises
    [IndexError] on the verses of the source's own demonstration. *)
Theorem rhyme_demo_raises :
  analyze_rhyme_patterns demo_verses = Raise IndexError.
Proof. by vm_compute. Qed.

(** C9, at a failing input.  For a list that holds an empty marker and
    a verse, [analyze_rhyme_patterns] returns no list: it raises
    [IndexError]. *)
Theorem rhyme_after_empty_raises :
  analyze_rhyme_patterns [u8 "empty"; u8 "ينادينا"] = Raise IndexError.
Proof. by vm_compute. Qed.

Lemma is_empty_spec verse : is_empty verse = true <-> verse = u8 "empty".
Proof. apply str_eqb_eq. Qed.

Lemma is_empty_false verse : is_empty verse = false -> verse <> u8 "empty".
Proof. intros E ->. by rewrite (proj2 (is_empty_spec _) eq_refl) in E. Qed.

Lemma leading_empty_spec verses results rest :
  leading_empty verses = (results, rest) ->
  verses = repeat (u8 "empty") (length results) ++ rest
  /\ results = repeat empty (length results)
  /\ match rest with
     | verse :: _ => verse <> u8 "empty"
     | [] => True
     end.
Proof.
  revert results rest. induction verses as [|v verses IH]; intros results rest.
  - by intros [= <- <-].
  - cbn [leading_empty]. destruct (is_empty v) eqn:E; cbn [negb].
    + destruct (leading_empty verses) as [r t].
      intros [= <- <-]. destruct (IH r t eq_refl) as (E1 & E2 & E3).
      apply is_empty_spec in E. subst v. cbn [length repeat app].
      split; [by rewrite <- E1|]. split; [by rewrite <- E2 | done].
    + intros [= <- <-]. cbn [length repeat app].
      split; [done|]. split; [done|]. by apply is_empty_false.
Qed.

Lemma remaining_aligned base verses results :
  remaining base verses = Ok results -> Forall2 entry_of verses results.
Proof.
  revert results. induction verses as [|v verses IH]; intros results.
  - intros [= <-]. constructor.
  - cbn [remaining]. destruct (is_empty v) eqn:E; cbn [negb].
    + destruct (remaining base verses); cbn [rbind]; [|done].
      intros [= <-]. constructor; [by apply is_empty_spec | by apply IH].
    + destruct (_analyse_qafeeh v); cbn [rbind]; [|done].
      destruct (remaining base verses); cbn [rbind]; [|done].
      intros [= <-]. constructor; [|by apply IH].
      by apply is_empty_false.
Qed.

(** ** The normaliser and the classical verse *)

(** C5, at a failing input.  The prosodic form of the verse of the
    first scenario contains [##]; so does the one of the empty text as
    a hemistich-closing verse. *)
Theorem normalise_double_boundary :
  normalise qifa_nabki false = u8 "#إِ#ى##"
  /\ contains (normalise qifa_nabki false) (u8 "##")
  /\ normalise [] true = u8 "##".
Proof.
  split; [by vm_compute|]. split; [|by vm_compute].
  exists (u8 "#إِ#ى"), []. by vm_compute.
Qed.

(** C6, at its input.  For the verse of the first scenario
    [analyze_classical_verse] reports the meter ["unknown"], with an
    empty skeleton and no feet. *)
Theorem qifa_nabki_unknown :
  exists r,
    analyze_classical_verse qifa_nabki false = Ok r
    /\ arrodi r = u8 "إِى"
    /\ rokaz r = []
    /\ ba7er_name r = "unknown"%string
    /\ tafa3eel r = [].
Proof. eexists. split; [by vm_compute|]. by vm_compute. Qed.

(** C7, at a failing input.  The four passes run again on the
    prosodic form of the verse of the first scenario give another
    string. *)
Theorem normalise_not_idempotent :
  normalise qifa_nabki false = u8 "#إِ#ى##"
  /\ normalise (normalise qifa_nabki false) false = u8 "#ى#"
  /\ normalise (normalise qifa_nabki false) false
     <> normalise qifa_nabki false.
Proof. split; [by vm_compute|]. split; by vm_compute. Qed.

(** The theorem at a short text with the two alternatives of a foot. *)
Lemma wizard_free_verse_terminates_witness :
  Forall (fun p : str => p <> []) [u8 "U--"; u8 "U-U"]
  /\ exists r, forall fuel,
       length (w_rokaz (wizard_start (u8 "قِفَا نَبْكِ"))) <= fuel ->
       wizard_analysis_free_verse fuel (u8 "قِفَا نَبْكِ")
         [u8 "U--"; u8 "U-U"] [u8 "فَعُوْلُنْ"; u8 "فَعُوْلُ"]
       = Some r.
Proof.
  assert (H : Forall (fun p : str => p <> []) [u8 "U--"; u8 "U-U"]).
  { repeat constructor; by vm_compute. }
  split; [exact H|].
  apply (wizard_free_verse_terminates (u8 "قِفَا نَبْكِ")
           [u8 "U--"; u8 "U-U"] [u8 "فَعُوْلُنْ"; u8 "فَعُوْلُ"] H).
Defined.

(** * Further properties of the code *)

(** ** Runs of one class under [re.sub] *)

Section Runs.

Import Re.
Variable cs : list cp.
Variable groups_no : nat.
Variable t : list titem.

Let p := Pattern (Rep cs 1) groups_no.

Lemma match_at_run s :
  match_at p s
  = if 1 <=? class_run cs s then Some (drop (class_run cs s) s, [])
    else None.
Proof using Type.
  unfold match_at, p. cbn [expr run].
  destruct (1 <=? class_run cs s) eqn:E; [|done].
  apply Nat.leb_le in E.
  remember (class_run cs s - 1) as d eqn:Ed.
  replace (class_run cs s) with (1 + d) by lia.
  by destruct d.
Qed.

Lemma sub_from_run s :
  sub_from p t 0 s = squeeze cs (expand t []) false s
  /\ sub_from p t (class_run cs s) s = squeeze cs (expand t []) true s.
Proof using Type.
  induction s as [|x s [IHa IHb]]; [done|].
  assert (Ha : sub_from p t 0 (x :: s) = squeeze cs (expand t []) false (x :: s)).
  { cbn [sub_from squeeze]. rewrite match_at_run. cbn [class_run].
    destruct (cp_in x cs) eqn:Ex.
    - cbn [Nat.leb]. pose proof (class_run_le cs s) as Hle.
      rewrite length_drop. cbn [length].
      replace (S (length s) - (S (length s) - S (class_run cs s)))
        with (S (class_run cs s)) by lia.
      by rewrite IHb.
    - cbn [Nat.leb]. by rewrite IHa. }
  split; [exact Ha|].
  cbn [class_run]. destruct (cp_in x cs) eqn:Ex.
  - cbn [sub_from squeeze]. rewrite Ex. by rewrite IHb.
  - rewrite Ha. cbn [squeeze]. by rewrite Ex.
Qed.

End Runs.

Lemma squeeze_elements cs new b s x :
  In x (squeeze cs new b s) -> In x s \/ In x new.
Proof.
  revert b. induction s as [|y s IH]; intros b; cbn [squeeze]; [done|].
  destruct (cp_in y cs).
  - intros H. apply in_app_or in H as [H|H].
    + destruct b; [destruct H | by right].
    + destruct (IH _ H); [left; by right | by right].
  - intros [->|H]; [left; by left|].
    destruct (IH _ H); [left; by right | by right].
Qed.

Lemma squeeze_removes cs b s x :
  In x cs -> ~ In x (squeeze cs [] b s).
Proof.
  intros Hx. revert b. induction s as [|y s IH]; intros b; cbn [squeeze];
    [by intros []|].
  destruct (cp_in y cs) eqn:Ey.
  - destruct b; cbn [app]; apply IH.
  - intros [->|H]; [|by apply (IH false)].
    apply cp_in_In in Hx. congruence.
Qed.

(** ** The joined text *)

Lemma compile_spaces : Re.compile " +" = Re.Pattern (Re.Rep [32%N] 1) 0.
Proof. by vm_compute. Qed.

Lemma compile_hashes : Re.compile "#+" = Re.Pattern (Re.Rep [35%N] 1) 0.
Proof. by vm_compute. Qed.

Lemma joined_squeeze s :
  joined s = squeeze [32%N] [] false (Py.replace s [35%N] [32%N]).
Proof.
  unfold joined, Re.sub. rewrite compile_spaces.
  change (Re.template []) with (@nil Re.titem).
  apply (sub_from_run [32%N] 0 []).
Qed.

(** After the boundaries have been turned into spaces and the spaces
    taken out, neither is left. *)
Lemma joined_no_boundary s : ~ In 35%N (joined s) /\ ~ In 32%N (joined s).
Proof.
  rewrite joined_squeeze. split.
  - intros H. apply squeeze_elements in H as [H|H]; [|done].
    rewrite replace_single in H. apply in_map_iff in H as (y & Hy & _).
    destruct (N.eqb_spec 35 y); [done | by subst].
  - apply squeeze_removes. by left.
Qed.

(** X1.  For every processed text: once its boundaries [#] have become spaces
    and the spaces have been taken out, which is what every public
    operation does before it extracts, [_get_harakat_only] finds no
    mark in it; the harakat and the skeleton are empty and [_get_ba7er]
    answers ["unknown"]. *)
Theorem extractor_of_joined_text (processed_text : str) :
  _get_harakat_only (joined processed_text) = []
  /\ _get_rokaz_khoutayt (_get_harakat_only (joined processed_text)) = []
  /\ _get_ba7er (_get_rokaz_khoutayt (_get_harakat_only (joined processed_text)))
     = "unknown"%string.
Proof.
  destruct (joined_no_boundary processed_text) as [Hh Hs].
  by apply harakat_of_joined_text.
Qed.

Lemma ba7er_of_joined s :
  _get_ba7er
    (_get_rokaz_khoutayt
       (_get_harakat_only
          (Re.sub (Re.compile " +") [] (Py.replace s (u8 "#") (u8 " ")))))
  = "unknown"%string.
Proof.
  destruct (joined_no_boundary s) as [Hh Hs].
  exact (proj2 (proj2 (harakat_of_joined_text _ Hh Hs))).
Qed.

Lemma harakat_of_joined s :
  _get_harakat_only
    (Re.sub (Re.compile " +") [] (Py.replace s (u8 "#") (u8 " ")))
  = [].
Proof.
  destruct (joined_no_boundary s) as [Hh Hs].
  exact (proj1 (harakat_of_joined_text _ Hh Hs)).
Qed.

(** ** The truth table *)

Section TruthTable.

Lemma fold_left_same {A B} (f g : A -> B -> A) (l : list B) (a : A) :
  (forall a b, f a b = g a b) -> fold_left f l a = fold_left g l a.
Proof.
  intros H. revert a. induction l as [|b l IH]; intros a; [done|].
  cbn [fold_left]. by rewrite H, IH.
Qed.

(** The loop over [range(total)] reads the table it goes through. *)
Lemma fold_seq_lookup {A} (g : nat -> A -> A) (l pre : list nat) (a : A) :
  fold_left
    (fun h i =>
       match (pre ++ l) !! i, (pre ++ l) !! i with
       | Some t, Some f => g t h
       | _, _ => h
       end)
    (seq (length pre) (length l)) a
  = fold_left (fun h r => g r h) l a.
Proof.
  revert pre a. induction l as [|r l IH]; intros pre a; [done|].
  cbn [length seq fold_left].
  rewrite (list_lookup_middle pre l r (length pre) eq_refl).
  specialize (IH (pre ++ [r]) (g r a)).
  rewrite <- app_assoc, length_app in IH. cbn [length app] in IH.
  rewrite Nat.add_1_r in IH. exact IH.
Qed.

Lemma truth_values_step count h :
  _get_truth_values (S (S count)) h
  = rbind (_get_truth_values (S count) h)
      (fun rec =>
         Ok (fst rec ++ fst rec,
             fold_left
               (fun h r => insert_front "0" r (insert_front "1" r h))
               (fst rec) (snd rec))).
Proof.
  change (_get_truth_values (S (S count)) h)
    with (rbind (_get_truth_values (S count) h)
            (fun rec =>
               let '(trues, h) := rec in
               let falses := trues in
               let h :=
                 fold_left
                   (fun h i =>
                      match trues !! i, falses !! i with
                      | Some t, Some f =>
                        insert_front "0" f (insert_front "1" t h)
                      | _, _ => h
                      end)
                   (seq 0 (length trues)) h in
               Ok (trues ++ falses, h))).
  destruct (_get_truth_values (S count) h) as [[trues h1]|e]; [|done].
  cbn [rbind fst snd]. do 2 f_equal.
  pose proof (fold_seq_lookup
                (fun r h => alter (cons (u8 "0")) r (alter (cons (u8 "1")) r h))
                trues [] h1) as H.
  cbn [app length] in H. unfold insert_front.
  etransitivity; [|exact H].
  apply fold_left_same.
  intros h' i. by destruct (trues !! i).
Qed.

Lemma insert_pair_first_row a m (h : list (list str)) :
  first_row a m h ->
  first_row a (2 + m) (alter (cons (u8 "0")) a (alter (cons (u8 "1")) a h)).
Proof.
  intros (pre & Hpre & Hm).
  exists (u8 "0" :: u8 "1" :: pre). split; [|cbn [length]; lia].
  by rewrite !list_lookup_alter_eq, Hpre.
Qed.

Lemma insert_pair_other_row a m r (h : list (list str)) :
  r <> a -> first_row a m h ->
  first_row a m (alter (cons (u8 "0")) r (alter (cons (u8 "1")) r h)).
Proof.
  intros Hne (pre & Hpre & Hm). exists pre. split; [|done].
  by rewrite !list_lookup_alter_ne by done.
Qed.

Lemma first_row_weaken a m n h : n <= m -> first_row a m h -> first_row a n h.
Proof. intros Hn (pre & Hpre & Hm). exists pre. split; [done | lia]. Qed.

Lemma insert_rows_first_row a m refs h :
  first_row a m h ->
  first_row a m
    (fold_left (fun h r => insert_front "0" r (insert_front "1" r h)) refs h).
Proof.
  revert h. induction refs as [|r refs IH]; intros h Hh; [done|].
  cbn [fold_left]. apply IH.
  destruct (decide (r = a)) as [->|Hne].
  - apply (first_row_weaken a (2 + m)); [lia|].
    by apply insert_pair_first_row.
  - by apply insert_pair_other_row.
Qed.

Lemma insert_rows_first_row_grows a m refs h :
  first_row a m h ->
  first_row a (2 + m)
    (fold_left (fun h r => insert_front "0" r (insert_front "1" r h))
               (a :: refs) h).
Proof.
  intros Hh. cbn [fold_left].
  apply insert_rows_first_row. by apply insert_pair_first_row.
Qed.

Lemma insert_rows_length refs (h : store) :
  length (fold_left (fun h r => insert_front "0" r (insert_front "1" r h))
                    refs h)
  = length h.
Proof.
  revert h. induction refs as [|r refs IH]; intros h; [done|].
  cbn [fold_left]. rewrite IH. unfold insert_front, store.
  by rewrite !length_alter.
Qed.

(** The table of [_get_truth_values] and the two rows it is made of. *)
Lemma truth_values_rows (count : nat) (h : store) :
  exists table h',
    _get_truth_values (S count) h = Ok (table, h')
    /\ length table = 2 ^ S count
    /\ length h' = length h + 2
    /\ Forall (fun r => r = length h \/ r = S (length h)) table
    /\ table !! 0 = Some (length h)
    /\ first_row (length h) (2 * count) h'.
Proof.
  induction count as [|count (table & h1 & E & Hlen & Hh & Hall & H0 & Hrow)].
  - exists [length h; S (length h)], (h ++ [[u8 "1"]; [u8 "0"]]).
    split; [done|]. split; [done|].
    split; [rewrite length_app; cbn [length]; lia|].
    split; [constructor; [by left|]; constructor; [by right | constructor]|].
    split; [done|].
    exists []. split; [|cbn [length]; lia].
    by rewrite (list_lookup_middle h [[u8 "0"]] [u8 "1"] (length h) eq_refl).
  - eexists _, _. rewrite truth_values_step, E. cbn [rbind fst snd].
    split; [reflexivity|].
    split; [rewrite length_app, Hlen; cbn [Nat.pow]; lia|].
    split; [by rewrite insert_rows_length|].
    split; [by apply Forall_app|].
    destruct table as [|r table]; [done|].
    injection H0 as ->. split; [done|].
    replace (2 * S count) with (2 + 2 * count) by lia.
    by apply insert_rows_first_row_grows.
Qed.

(** X2.  For every count of at least one and every store,
    [_get_truth_values] returns a table of [2 ^ count] entries, yet
    allocates two rows only: every entry of the table is one of these
    two lists, the first entry is the first of them, and that row ends
    with ['1'] after at least [2 * (count - 1)] other bits, so that for
    a count of two or more it is longer than [count]. *)
Theorem truth_values_shape (count : nat) (h : store) :
  exists table h',
    _get_truth_values (S count) h = Ok (table, h')
    /\ length table = 2 ^ S count
    /\ length h' = length h + 2
    /\ Forall (fun r => r = length h \/ r = S (length h)) table
    /\ table !! 0 = Some (length h)
    /\ first_row (length h) (2 * count) h'.
Proof. apply truth_values_rows. Qed.

End TruthTable.

(** ** The ishbaa search, whatever the text *)

Lemma index_only_index_error {A} (xs : list A) i e :
  index xs i = Raise e -> e = IndexError.
Proof. unfold index. destruct (xs !! i); [done | by intros [= <-]]. Qed.

Lemma index_out_of_range {A} (xs : list A) i :
  length xs <= i -> index xs i = Raise IndexError.
Proof. intros H. unfold index. by rewrite (lookup_ge_None_2 xs i H). Qed.

Lemma index_in_range {A} (xs : list A) i :
  i < length xs -> exists x, index xs i = Ok x.
Proof.
  intros H. unfold index.
  destruct (lookup_lt_is_Some_2 xs i H) as [x ->]. by exists x.
Qed.

Lemma lengthen_only_index_error state : forall i positions parts e,
  lengthen i state positions parts = Raise e -> e = IndexError.
Proof.
  induction state as [|bit state IH]; intros i positions parts e; [done|].
  cbn [lengthen]. destruct (str_eqb bit (u8 "1")); [|apply IH].
  destruct (index positions i) as [p|e1] eqn:E1; cbn [rbind].
  - destruct (index parts p) as [part|e2] eqn:E2; cbn [rbind].
    + apply IH.
    + intros [= <-]. by eapply index_only_index_error.
  - intros [= <-]. by eapply index_only_index_error.
Qed.

(** A state that has a ['1'] at an index that is no pronoun's makes the
    inner loop raise. *)
Lemma lengthen_long_state pre : forall i positions parts,
  length positions <= i + length pre ->
  lengthen i (pre ++ [u8 "1"]) positions parts = Raise IndexError.
Proof.
  induction pre as [|bit pre IH]; intros i positions parts Hlen.
  - cbn [app lengthen]. rewrite str_eqb_refl.
    rewrite index_out_of_range; [done | cbn [length] in Hlen; lia].
  - cbn [app lengthen]. cbn [length] in Hlen.
    destruct (str_eqb bit (u8 "1")); [|apply IH; lia].
    destruct (index positions i) as [p|e1] eqn:E1; cbn [rbind].
    + destruct (index parts p) as [part|e2] eqn:E2; cbn [rbind].
      * apply IH. lia.
      * by rewrite (index_only_index_error _ _ _ E2).
    + by rewrite (index_only_index_error _ _ _ E1).
Qed.

(** Whatever the states, no variant gets a meter: the loop raises or
    ends with ['unknownAlso']. *)
Lemma try_states_no_meter truth_table parts positions :
  try_states truth_table parts positions = Raise IndexError
  \/ try_states truth_table parts positions = Ok None.
Proof.
  induction truth_table as [|state truth_table IH]; [by right|].
  cbn [try_states].
  destruct (lengthen 0 state positions parts) as [temp_parts|e] eqn:E;
    cbn [rbind].
  - cbv zeta. rewrite ba7er_of_joined. exact IH.
  - left. by rewrite (lengthen_only_index_error _ _ _ _ _ E).
Qed.

Lemma try_states_first_raises state truth_table parts positions :
  lengthen 0 state positions parts = Raise IndexError ->
  try_states (state :: truth_table) parts positions = Raise IndexError.
Proof. intros E. cbn [try_states]. by rewrite E. Qed.

Lemma try_states_plain truth_table parts positions :
  Forall (fun state => exists temp_parts,
              lengthen 0 state positions parts = Ok temp_parts) truth_table ->
  try_states truth_table parts positions = Ok None.
Proof.
  induction 1 as [|state truth_table (temp_parts & E) _ IH]; [done|].
  cbn [try_states]. rewrite E. cbn [rbind]. cbv zeta.
  rewrite ba7er_of_joined. exact IH.
Qed.

Lemma pronoun_positions_in_range parts : forall i p,
  In p (pronoun_positions i parts) -> i <= p < i + length parts.
Proof.
  induction parts as [|part parts IH]; intros i p; cbn [pronoun_positions];
    [done|].
  intros H. apply in_app_or in H as [H|H].
  - destruct (str_in part pronouns); [|done].
    destruct H as [<-|[]]. cbn [length]. lia.
  - apply IH in H. cbn [length]. lia.
Qed.

(** What the search makes of a text, by the number of its pronouns. *)
Lemma eshbaa3_outcome (text : str) :
  _do_eshbaa3_shater text
  = if 2 <=? length (pronoun_positions_of text)
    then Raise IndexError else Ok None.
Proof.
  unfold _do_eshbaa3_shater, pronoun_positions_of. cbv zeta.
  set (parts := Re.split _ _).
  pose proof (pronoun_positions_in_range parts 0) as Hrange.
  destruct (pronoun_positions 0 parts) as [|p0 [|p1 positions]] eqn:Ep.
  - cbn [rbind length Nat.leb]. apply try_states_plain.
    constructor; [|constructor]. by eexists.
  - cbn [length Nat.leb].
    change (_get_truth_values 1 [])
      with (Ok ([0; 1], [[u8 "1"]; [u8 "0"]]) : result (list nat * store)).
    cbn [rbind fst snd].
    change (rows [0; 1] [[u8 "1"]; [u8 "0"]]) with [[u8 "1"]; [u8 "0"]].
    apply try_states_plain.
    constructor; [|constructor; [by eexists | constructor]].
    cbn [lengthen]. rewrite str_eqb_refl.
    change (index [p0] 0) with (Ok p0 : result nat). cbn [rbind].
    destruct (index_in_range parts p0) as [part ->].
    { specialize (Hrange p0 ltac:(by left)). lia. }
    cbn [rbind]. by eexists.
  - cbn [Nat.leb].
    destruct (truth_values_rows (S (length positions)) [])
      as (table & h' & E & _ & _ & _ & H0 & pre & Hpre & Hm).
    cbn [length] in *. rewrite E. cbn [rbind fst snd].
    destruct table as [|r table]; [done|]. injection H0 as ->.
    cbn [rows map]. unfold store in *. rewrite Hpre. cbn [default from_option].
    apply try_states_first_raises, lengthen_long_state.
    cbn [length]. lia.
Qed.

(** X3.  For every text, [_do_eshbaa3_shater] finds no meter: with two
    pronoun endings or more it raises [IndexError], with fewer it
    returns ['unknownAlso'] (here [None]). *)
Theorem eshbaa3_never_finds (text : str) :
  _do_eshbaa3_shater text
  = if 2 <=? length (pronoun_positions_of text)
    then Raise IndexError else Ok None.
Proof. apply eshbaa3_outcome. Qed.

(** ** The public operations, whatever the text *)

(** X4.  For every text and either hemistich, [analyze_classical_verse]
    raises [IndexError] when the normalised text has two pronoun endings
    or more, and otherwise returns the result of an unknown meter:
    [ba7er_name] is ["unknown"], and harakat, skeleton and feet are
    empty. *)
Theorem classical_never_finds_a_meter (text : str) (is_ajez : bool) :
  analyze_classical_verse text is_ajez
  = if 2 <=? length (pronoun_positions_of (normalise text is_ajez))
    then Raise IndexError
    else Ok (unknown_result (normalise text is_ajez)).
Proof.
  unfold analyze_classical_verse. cbv zeta.
  rewrite ba7er_of_joined. cbn [String.eqb Ascii.eqb Bool.eqb negb].
  rewrite eshbaa3_outcome.
  destruct (2 <=? _); [done|]. cbn [rbind].
  unfold unknown_result, joined. by rewrite harakat_of_joined.
Qed.

Lemma rokaz_of_joined s :
  _get_rokaz_khoutayt
    (_get_harakat_only
       (Re.sub (Re.compile " +") [] (Py.replace s (u8 "#") (u8 " "))))
  = [].
Proof.
  destruct (joined_no_boundary s) as [Hh Hs].
  exact (proj1 (proj2 (harakat_of_joined_text _ Hh Hs))).
Qed.

(** X5.  For every text, [analyze_free_verse] returns the dictionary with
    ['poemErr']: no meter of a free-verse poem is ever recognised. *)
Theorem free_verse_never_finds_a_meter (text : str) :
  analyze_free_verse text
  = poemErr
      (u8 "لم يتم التعرّف على وزن هذه القصيدة للأسف , تأكّد من إدخال نصّ القصيدة بشكل صحيح").
Proof.
  unfold analyze_free_verse. cbv zeta. rewrite rokaz_of_joined.
  change (_what_tafeela_poem_on []) with "unknown"%string.
  reflexivity.
Qed.

Lemma wizard_start_empty text : w_rokaz (wizard_start text) = [].
Proof. unfold wizard_start. cbv zeta. cbn [w_rokaz]. apply rokaz_of_joined. Qed.

Lemma classical_start_empty text is_ajez :
  w_rokaz (classical_start text is_ajez) = [].
Proof.
  unfold classical_start. cbv zeta. cbn [w_rokaz]. apply rokaz_of_joined.
Qed.

(** X6.  For every text, whatever the patterns and names,
    [wizard_analysis_free_verse] returns the empty list: its loop is not
    entered, for the skeleton is empty. *)
Theorem wizard_free_verse_reports_nothing (fuel : nat) (text : str)
        (rule_patterns rule_names : list str) :
  wizard_analysis_free_verse fuel text rule_patterns rule_names
  = Some (Ok []).
Proof.
  unfold wizard_analysis_free_verse.
  pose proof (wizard_start_empty text) as E.
  destruct fuel; cbn [wizard_loop]; by rewrite E.
Qed.

(** ** The comparison with the alternatives of a foot *)

Lemma agree_cons c current e pattern :
  agree (c :: current) (e :: pattern) -> c = e /\ agree current pattern.
Proof. unfold agree. cbn [length take]. by intros [= -> ?]. Qed.

Lemma compare_loop_agree state_no name last at_last current :
  forall j char_pos pattern,
    agree current pattern ->
    compare_loop state_no name last at_last j char_pos current pattern = [].
Proof.
  induction current as [|c current IH]; intros j char_pos pattern Ha; [done|].
  destruct pattern as [|e pattern]; [done|].
  apply agree_cons in Ha as [-> Ha]. cbn [compare_loop].
  rewrite N.eqb_refl. by apply IH.
Qed.

Lemma compare_loop_at_most_one state_no name last at_last current :
  forall j char_pos pattern,
    length (compare_loop state_no name last at_last j char_pos
                         current pattern) <= 1.
Proof.
  induction current as [|c current IH]; intros j char_pos pattern;
    [cbn; lia|].
  destruct pattern as [|e pattern]; [cbn; lia|]. cbn [compare_loop].
  destruct (c =? e)%N; [apply IH|].
  destruct (c =? 85)%N; [cbn [length]; lia|].
  destruct (c =? 45)%N; [cbn [length]; lia|].
  destruct (j =? last); [cbn [length]; lia | apply IH].
Qed.

(** No message for alternatives the skeleton agrees with. *)
Lemma compare_agreeing (current : str)
        (expected_patterns pattern_names : list str) :
  Forall (agree current) expected_patterns ->
  _compare_with_tafeela current expected_patterns pattern_names = [].
Proof.
  unfold _compare_with_tafeela. generalize 1 as state_no.
  intros state_no H. revert state_no pattern_names.
  induction H as [|pattern patterns Ha _ IH]; intros state_no names;
    [done|].
  destruct names as [|name names]; [done|]. cbn [compare_states].
  rewrite IH, app_nil_r.
  destruct (length current <=? length pattern);
    by apply compare_loop_agree.
Qed.

(** X7.  When the current skeleton and every expected pattern agree as far
    as both go, [_compare_with_tafeela] has no message: a skeleton that
    is a proper prefix of a pattern, or has one as a proper prefix, is
    reported neither as shorter nor as longer. *)
Theorem compare_agreeing_is_silent (current : str)
        (expected_patterns pattern_names : list str) :
  Forall (agree current) expected_patterns ->
  _compare_with_tafeela current expected_patterns pattern_names = [].
Proof. apply compare_agreeing. Qed.

(** The theorem at a skeleton that is shorter than one alternative and
    longer than the other. *)
Lemma compare_agreeing_is_silent_witness :
  Forall (agree (u8 "U-")) [u8 "U--"; u8 "U"]
  /\ _compare_with_tafeela (u8 "U-") [u8 "U--"; u8 "U"] [u8 "a"; u8 "b"] = [].
Proof.
  assert (H : Forall (agree (u8 "U-")) [u8 "U--"; u8 "U"]).
  { repeat constructor. }
  split; [exact H|].
  apply (compare_agreeing_is_silent (u8 "U-") [u8 "U--"; u8 "U"]
           [u8 "a"; u8 "b"] H).
Defined.

(** X8.  [_compare_with_tafeela] has at most one message for each expected
    pattern that has a name: their number is at most the shorter of the
    two lengths. *)
Theorem compare_one_message_each (current : str)
        (expected_patterns pattern_names : list str) :
  length (_compare_with_tafeela current expected_patterns pattern_names)
  <= Nat.min (length expected_patterns) (length pattern_names).
Proof.
  unfold _compare_with_tafeela. generalize 1 as state_no.
  revert pattern_names.
  induction expected_patterns as [|pattern patterns IH];
    intros names state_no; [cbn; lia|].
  destruct names as [|name names]; [cbn; lia|]. cbn [compare_states].
  rewrite length_app. specialize (IH names (S state_no)).
  cbn [length Nat.min].
  destruct (length current <=? length pattern);
    match goal with
    | |- length (compare_loop ?a ?b ?c ?d ?e ?f ?g ?h) + _ <= _ =>
      pose proof (compare_loop_at_most_one a b c d g e f h)
    end; lia.
Qed.

(** ** The classical wizard *)

Lemma find_name_absent patterns : forall j names,
  Forall (fun p : str => p <> []) patterns ->
  find_name j patterns names [] = Ok [].
Proof.
  induction patterns as [|p patterns IH]; intros j names H; [done|].
  inversion H as [|? ? Hp Hps]; subst. cbn [find_name].
  destruct (str_eqb p []) eqn:E; [by apply str_eqb_eq in E|].
  by apply IH.
Qed.

Lemma try_alternatives_none todo patterns names st :
  w_rokaz st = [] ->
  Forall (fun p : str => p <> []) patterns ->
  Forall (fun p : str => p <> []) todo ->
  try_alternatives todo patterns names st = Ok None.
Proof.
  intros Hr Hp Ht. induction Ht as [|pattern todo Hne _ IH]; [done|].
  cbn [try_alternatives]. rewrite Hr, take_nil.
  rewrite find_name_absent by done. cbn [rbind].
  destruct (str_eqb pattern []) eqn:E; [by apply str_eqb_eq in E | exact IH].
Qed.

Lemma wizard_step_empty patterns names st :
  w_rokaz st = [] -> patterns <> [] ->
  Forall (fun p : str => p <> []) patterns ->
  exists st', wizard_step patterns names st = Ok (empty_err, st').
Proof.
  intros Hr Hne Hp. unfold wizard_step.
  rewrite try_alternatives_none by done. cbn [rbind].
  destruct patterns as [|first patterns]; [done|].
  change (index (first :: patterns) 0) with (Ok first : result str).
  cbn [rbind]. rewrite Hr, take_nil.
  rewrite find_name_absent by done. cbn [rbind].
  rewrite compare_agreeing.
  - eexists. reflexivity.
  - apply Forall_forall. intros p _. unfold agree.
    by rewrite take_nil, take_0.
Qed.

(** X9.  For every text, when the first rule has at least one pattern and
    none of its patterns is empty, [wizard_analysis_classical] returns
    one report only: an ['err'] with no foot name, no letters and no
    message. *)
Theorem wizard_classical_first_foot_fails (text : str) (is_ajez : bool)
        (patterns names : list str) (rule_patterns rule_names : list (list str)) :
  patterns <> [] ->
  Forall (fun p : str => p <> []) patterns ->
  wizard_analysis_classical text is_ajez (patterns :: rule_patterns)
                            (names :: rule_names)
  = Ok [empty_err].
Proof.
  intros Hne Hp. unfold wizard_analysis_classical.
  cbn [combine classical_loop].
  destruct (wizard_step_empty patterns names (classical_start text is_ajez)
              (classical_start_empty text is_ajez) Hne Hp) as [st' ->].
  reflexivity.
Qed.

(** The theorem at the first foot of the [taweel]. *)
Lemma wizard_classical_first_foot_fails_witness :
  [u8 "U--"; u8 "U-U"] <> []
  /\ Forall (fun p : str => p <> []) [u8 "U--"; u8 "U-U"]
  /\ wizard_analysis_classical qifa_nabki false
       [[u8 "U--"; u8 "U-U"]; [u8 "U---"]]
       [[u8 "فَعُوْلُنْ"; u8 "فَعُوْلُ"]; [u8 "مَفَاْعِيْلُنْ"]]
     = Ok [empty_err].
Proof.
  assert (H1 : [u8 "U--"; u8 "U-U"] <> []) by done.
  assert (H2 : Forall (fun p : str => p <> []) [u8 "U--"; u8 "U-U"]).
  { repeat constructor; by vm_compute. }
  split; [exact H1|]. split; [exact H2|].
  apply (wizard_classical_first_foot_fails qifa_nabki false
           [u8 "U--"; u8 "U-U"] [u8 "فَعُوْلُنْ"; u8 "فَعُوْلُ"]
           [[u8 "U---"]] [[u8 "مَفَاْعِيْلُنْ"]] H1 H2).
Defined.

(** The loop goes on only after a report that is ['ok']. *)
Lemma classical_loop_halts groups : forall st results reports,
  classical_loop groups st results = Ok reports ->
  exists new,
    reports = results ++ new
    /\ length new <= length groups
    /\ forall i r, new !! i = Some r -> S i < length new ->
                   status r = "ok"%string.
Proof.
  induction groups as [|[patterns names] groups IH];
    intros st results reports.
  - intros [= <-]. exists []. rewrite app_nil_r. repeat split; [done|].
    intros i r H. by rewrite lookup_nil in H.
  - cbn [classical_loop].
    destruct (wizard_step patterns names st) as [[report st']|e];
      cbn [rbind]; [|done].
    destruct (String.eqb (status report) "ok") eqn:Eok.
    + intros H. apply IH in H as (new & -> & Hlen & Hok).
      exists (report :: new). rewrite <- app_assoc.
      split; [done|]. split; [cbn [length]; lia|].
      intros [|i] r Hr Hi.
      * injection Hr as <-. by apply String.eqb_eq.
      * cbn [length] in Hi. apply (Hok i r Hr). lia.
    + intros [= <-]. exists [report].
      split; [done|]. split; [cbn [length]; lia|].
      intros i r Hr Hi. cbn [length] in Hi. lia.
Qed.

(** X10.  When [wizard_analysis_classical] returns a list of reports, there
    is at most one report for each rule that has names, and every
    report but the last has the status ['ok']. *)
Theorem wizard_classical_halts_at_first_error (text : str) (is_ajez : bool)
        (rule_patterns rule_names : list (list str)) (reports : list FootReport) :
  wizard_analysis_classical text is_ajez rule_patterns rule_names = Ok reports ->
  length reports <= Nat.min (length rule_patterns) (length rule_names)
  /\ forall i r, reports !! i = Some r -> S i < length reports ->
                 status r = "ok"%string.
Proof.
  unfold wizard_analysis_classical. intros H.
  apply classical_loop_halts in H as (new & -> & Hlen & Hok).
  rewrite length_combine in Hlen. cbn [app]. split; [lia | exact Hok].
Qed.

Lemma wizard_classical_halts_at_first_error_witness :
  wizard_analysis_classical qifa_nabki false
    [[u8 "U--"; u8 "U-U"]; [u8 "U---"]]
    [[u8 "فَعُوْلُنْ"; u8 "فَعُوْلُ"]; [u8 "مَفَاْعِيْلُنْ"]]
  = Ok [empty_err]
  /\ length [empty_err] <= Nat.min 2 2
  /\ forall i r, [empty_err] !! i = Some r -> S i < length [empty_err] ->
                 status r = "ok"%string.
Proof.
  assert (H : wizard_analysis_classical qifa_nabki false
                [[u8 "U--"; u8 "U-U"]; [u8 "U---"]]
                [[u8 "فَعُوْلُنْ"; u8 "فَعُوْلُ"]; [u8 "مَفَاْعِيْلُنْ"]]
              = Ok [empty_err]) by (by vm_compute).
  split; [exact H|].
  apply (wizard_classical_halts_at_first_error qifa_nabki false
           [[u8 "U--"; u8 "U-U"]; [u8 "U---"]]
           [[u8 "فَعُوْلُنْ"; u8 "فَعُوْلُ"]; [u8 "مَفَاْعِيْلُنْ"]]
           [empty_err] H).
Defined.

(** ** The rhyme analyser *)

Lemma str_in_disjoint x l1 l2 :
  forallb (fun y => negb (str_in y l2)) l1 = true ->
  str_in x l1 && str_in x l2 = false.
Proof.
  intros H. destruct (str_in x l1) eqn:E1; [|done]. cbn [andb].
  apply str_in_spec in E1. rewrite forallb_forall in H.
  specialize (H x E1). by destruct (str_in x l2).
Qed.

(** X11.  The comparison that [analyze_rhyme_patterns] makes of a rhyme with
    the reference rhyme has no message when the two are the same. *)
Theorem rhyme_errors_of_itself (q : QafeehAnalysis) : rhyme_errors q q = [].
Proof.
  unfold rhyme_errors. rewrite !str_eqb_refl. cbn [negb].
  rewrite (str_in_disjoint (redf q) [u8 "يْ"; u8 "وْ"] [u8 "ا"; u8 "اْ"])
    by (by vm_compute).
  rewrite (str_in_disjoint (redf q) [u8 "اْ"; u8 "ا"] [u8 "وْ"; u8 "يْ"])
    by (by vm_compute).
  by destruct (truthy (ta2ses q)), (truthy (redf q)).
Qed.

Lemma only_index_error_ok {A} (a : A) : only_index_error (Ok a).
Proof. by intros e. Qed.

Lemma only_index_error_index {A} (xs : list A) i :
  only_index_error (index xs i).
Proof. intros e. apply index_only_index_error. Qed.

Lemma only_index_error_index_back {A} (xs : list A) i :
  only_index_error (index_back xs i).
Proof.
  intros e. unfold index_back. destruct (i <=? length xs).
  - apply index_only_index_error.
  - by intros [= <-].
Qed.

Lemma only_index_error_bind {A B} (m : result A) (f : A -> result B) :
  only_index_error m -> (forall a, only_index_error (f a)) ->
  only_index_error (rbind m f).
Proof.
  intros Hm Hf e. destruct m as [a|e']; cbn [rbind].
  - apply Hf.
  - intros [= <-]. by apply Hm.
Qed.

Ltac only_index :=
  repeat first
    [ apply only_index_error_ok
    | apply only_index_error_index
    | apply only_index_error_index_back
    | apply only_index_error_bind; [|intros ?]
    | match goal with
      | |- only_index_error (if ?c then _ else _) => destruct c
      | |- only_index_error (match ?p with pair _ _ => _ end) => destruct p
      end ].

(** X13.  When [_analyse_qafeeh] raises, what it raises is [IndexError]. *)
Theorem analyse_qafeeh_raises_index_error_only (ajez : str) (e : exn) :
  _analyse_qafeeh ajez = Raise e -> e = IndexError.
Proof.
  revert e. change (only_index_error (_analyse_qafeeh ajez)).
  unfold _analyse_qafeeh. cbv zeta.
  destruct (qafeeh_parts _ _ _ _ _ _) as [[alphas harakat] word_positions].
  apply only_index_error_bind; [apply only_index_error_index | intros first].
  apply only_index_error_bind;
    [apply only_index_error_index_back | intros last_char].
  apply only_index_error_bind;
    [apply only_index_error_index_back | intros last_haraka].
  apply only_index_error_bind; [only_index | intros parts].
  destruct parts as [[[[rhyme_type rawee_pos] rawee] wasel] kharoog].
  match goal with
  | |- only_index_error (match ?p with pair _ _ => _ end) =>
    destruct p as [[redf ta2ses] dakheel]
  end.
  apply only_index_error_bind; [|intros ?; apply only_index_error_ok].
  destruct (String.eqb rhyme_type "F").
  - destruct kharoog, redf, ta2ses; cbn [truthy negb andb];
      apply only_index_error_ok.
  - only_index.
Qed.

Lemma analyse_qafeeh_raises_index_error_only_witness :
  _analyse_qafeeh [] = Raise IndexError /\ IndexError = IndexError.
Proof.
  assert (H : _analyse_qafeeh [] = Raise IndexError) by (by vm_compute).
  split; [exact H|].
  apply (analyse_qafeeh_raises_index_error_only [] IndexError H).
Defined.

(** The alignment at three verses that are analysed without an
    exception. *)
(** X12.  The comparison of [analyze_rhyme_patterns] never has the message of
    a differing kharoog: its test compares the two rawee, where they are
    known to be equal. *)
Theorem kharoog_never_reported (current_qafeeh base_qafeeh : QafeehAnalysis) :
  ~ In (u8 "الخروج مختلف في البيت الحالي عن الخروج في قافية القصيدة")
       (rhyme_errors current_qafeeh base_qafeeh).
Proof.
  unfold rhyme_errors. intros H.
  destruct (str_eqb (rawee current_qafeeh) (rawee base_qafeeh));
    cbn [negb] in H;
    repeat match type of H with
    | context [if ?b then _ else _] => destruct b
    end;
    cbn [In app] in H;
    repeat match type of H with
    | _ \/ _ => destruct H as [H|H]
    end;
    try (exact H); vm_compute in H; discriminate H.
Qed.

(** X14.  [analyze_rhyme_patterns] returns ['emptyAll'] for the lists whose
    verses are all ['empty'], the empty list among them, and for no
    other list. *)
Theorem rhyme_emptyAll_iff verses :
  analyze_rhyme_patterns verses = Ok emptyAll
  <-> Forall (fun verse => verse = u8 "empty") verses.
Proof.
  unfold analyze_rhyme_patterns.
  destruct (leading_empty verses) as [results rest] eqn:E.
  destruct (leading_empty_spec _ _ _ E) as (Ev & _ & Er).
  destruct rest as [|verse rest].
  - split; [|done]. intros _. rewrite Ev, app_nil_r.
    apply Forall_forall. intros x Hx. apply list_elem_of_In in Hx.
    by apply repeat_spec in Hx.
  - split.
    + destruct (_analyse_qafeeh verse); cbn [rbind]; [|done].
      by destruct (remaining _ _).
    + intros H. rewrite Ev in H. apply Forall_app in H as [_ H].
      by inversion H.
Qed.

(** X15.  When [analyze_rhyme_patterns] returns a list, it has one entry for
    each verse: ['empty'] at the place of each ['empty'] verse and an
    analysis at the place of every other verse. *)
Theorem rhyme_entries_aligned verses results :
  analyze_rhyme_patterns verses = Ok (entries results) ->
  Forall2 entry_of verses results.
Proof.
  unfold analyze_rhyme_patterns.
  destruct (leading_empty verses) as [lead rest] eqn:E.
  destruct (leading_empty_spec _ _ _ E) as (Ev & El & Er).
  destruct rest as [|verse rest]; [done|].
  destruct (_analyse_qafeeh verse) as [base|]; cbn [rbind]; [|done].
  destruct (remaining base rest) as [rs|] eqn:Erem; cbn [rbind]; [|done].
  intros [= <-]. rewrite Ev, El. apply Forall2_app.
  - rewrite repeat_length. clear. induction (length lead); cbn [repeat];
      by constructor.
  - constructor; [done | by eapply remaining_aligned].
Qed.

Lemma rhyme_entries_aligned_witness :
  exists results,
    analyze_rhyme_patterns [u8 "ب"; u8 "empty"; u8 "ت"] = Ok (entries results)
    /\ Forall2 entry_of [u8 "ب"; u8 "empty"; u8 "ت"] results.
Proof.
  eexists. split; [by vm_compute|].
  apply (rhyme_entries_aligned [u8 "ب"; u8 "empty"; u8 "ت"]).
  by vm_compute.
Defined.

(** ** Single code points under [str.replace] and [re.sub] *)

Lemma replace_delete (a : cp) (s : str) :
  Py.replace s [a] [] = List.filter (fun c => negb (a =? c)%N) s.
Proof.
  unfold Py.replace. induction s as [|c s IH]; [done|].
  cbn [Py.replace_from List.filter]. unfold Py.startswith.
  cbn [Py.strip_prefix]. destruct (a =? c)%N; cbn [negb length Nat.pred app].
  - exact IH.
  - by rewrite IH.
Qed.

Lemma replace_delete_absent (a : cp) (s : str) : ~ In a (Py.replace s [a] []).
Proof.
  rewrite replace_delete. intros H. apply filter_In in H as [_ H].
  by rewrite N.eqb_refl in H.
Qed.

Lemma replace_delete_elements (a x : cp) (s : str) :
  In x (Py.replace s [a] []) -> In x s.
Proof. rewrite replace_delete. intros H. by apply filter_In in H as [H _]. Qed.

Lemma replace_from_elements old new x s : forall skip,
  In x (Py.replace_from old new skip s) -> In x s \/ In x new.
Proof.
  induction s as [|c s IH]; intros skip; [by left|].
  cbn [Py.replace_from]. destruct skip as [|n].
  - destruct (Py.startswith (c :: s) old).
    + intros H. apply in_app_or in H as [H|H]; [by right|].
      destruct (IH _ H); [left; by right | by right].
    + intros [->|H]; [left; by left|].
      destruct (IH _ H); [left; by right | by right].
  - intros H. destruct (IH _ H); [left; by right | by right].
Qed.

Lemma replace_elements s old new x :
  In x (Py.replace s old new) -> In x s \/ In x new.
Proof.
  unfold Py.replace. destruct old; [by left | apply replace_from_elements].
Qed.

Section ClassSub.

Import Re.
Variable cs : list cp.
Variable groups_no : nat.
Variable t : list titem.

(** [re.sub] with a pattern that is one class: each code point of the
    class is replaced. *)
Lemma sub_from_class s :
  sub_from (Pattern (Cls cs) groups_no) t 0 s
  = flat_map (fun c => if cp_in c cs then expand t [] else [c]) s.
Proof using Type.
  induction s as [|c s IH]; [done|].
  cbn [sub_from flat_map]. unfold match_at. cbn [expr run].
  destruct (cp_in c cs).
  - cbn [length]. replace (S (length s) - length s) with 1 by lia.
    by rewrite IH.
  - by rewrite IH.
Qed.

End ClassSub.

(** ** The tanwin and shadda pass *)

Lemma pair_up_nil text : pair_up text = [] -> text = [].
Proof.
  destruct text as [|a [|b rest]]; [done | done|].
  change (pair_up (a :: b :: rest))
    with (if negb (a =? 35)%N && negb (b =? 35)%N
          then [a; b] :: pair_up rest
          else [a] :: pair_up (b :: rest)).
  by destruct (negb (a =? 35)%N && negb (b =? 35)%N).
Qed.

Lemma str_to_chars_nil text : _str_to_chars text = [] -> text = [].
Proof.
  unfold _str_to_chars. intros H. apply pair_up_nil in H.
  change (u8 " ") with [32%N] in H. change (u8 "#") with [35%N] in H.
  rewrite replace_single in H. by destruct text.
Qed.

Lemma tanween_rules_last s :
  apply_rules tanween_rules s
  = flat_map
      (fun c => if cp_in c [tanwin_damm; tanwin_kasr; tanwin_fath]
                then [1606; 1618]%N else [c])
      (apply_rules (List.removelast tanween_rules) s).
Proof.
  assert (E : tanween_rules
              = List.removelast tanween_rules
                ++ [List.last tanween_rules (EmptyString, EmptyString)]).
  { apply app_removelast_last. unfold tanween_rules. discriminate. }
  unfold apply_rules at 1. rewrite E at 1.
  rewrite fold_left_app. cbn [fold_left]. unfold Re.sub.
  assert (Ec : Re.compile (fst (List.last tanween_rules (EmptyString, EmptyString)))
               = Re.Pattern
                   (Re.Cls [tanwin_damm; tanwin_kasr; tanwin_fath]) 0)
    by (vm_compute; reflexivity).
  assert (Et : Re.template
                 (u8 (snd (List.last tanween_rules (EmptyString, EmptyString))))
               = [Re.TLit 1606%N; Re.TLit 1618%N])
    by (vm_compute; reflexivity).
  rewrite Ec, Et, sub_from_class. reflexivity.
Qed.

(** X16.  For every text and either hemistich, what
    [_handle_tanween_shaddeh] returns holds no shadda and no tanwin. *)
Theorem tanween_shaddeh_leaves_none (text : str) (is_ajez : bool) :
  forall c, In c [shadda; tanwin_fath; tanwin_damm; tanwin_kasr] ->
            ~ In c (_handle_tanween_shaddeh text is_ajez).
Proof.
  intros c Hc. unfold _handle_tanween_shaddeh. cbv zeta.
  destruct (_str_to_chars (_clean_str text)) as [|c0 chars] eqn:E.
  - apply str_to_chars_nil in E. rewrite E. by intros [].
  - match goal with
    | |- ~ In c (Py.replace (apply_rules tanween_rules ?s) _ _) =>
      generalize s
    end.
    intros s. change (u8 "ّ") with [shadda].
    destruct Hc as [<-|Hc]; [apply replace_delete_absent|].
    intros H. apply replace_delete_elements in H.
    rewrite tanween_rules_last in H.
    apply in_flat_map in H as (y & _ & Hy).
    destruct (cp_in y [tanwin_damm; tanwin_kasr; tanwin_fath]) eqn:Ey.
    + cbn [In] in Hc, Hy.
      destruct Hc as [<-|[<-|[<-|[]]]], Hy as [Hy|[Hy|[]]];
        by vm_compute in Hy.
    + destruct Hy as [->|[]].
      assert (cp_in c [tanwin_damm; tanwin_kasr; tanwin_fath] = true);
        [|congruence].
      cbn [In] in Hc. by destruct Hc as [<-|[<-|[<-|[]]]].
Qed.

(** The theorem at a word with a shadda. *)
Lemma tanween_shaddeh_leaves_none_witness :
  In shadda [shadda; tanwin_fath; tanwin_damm; tanwin_kasr]
  /\ ~ In shadda (_handle_tanween_shaddeh (u8 "مَدَّ") false).
Proof.
  assert (H : In shadda [shadda; tanwin_fath; tanwin_damm; tanwin_kasr])
    by (left; reflexivity).
  split; [exact H|].
  exact (tanween_shaddeh_leaves_none (u8 "مَدَّ") false shadda H).
Defined.

(** ** The list of characters *)

Lemma pair_up_join text : concat (pair_up text) = text.
Proof.
  induction text as [|a|a b rest IH1 IH2] using list_ind2; [done | done|].
  change (pair_up (a :: b :: rest))
    with (if negb (a =? 35)%N && negb (b =? 35)%N
          then [a; b] :: pair_up rest
          else [a] :: pair_up (b :: rest)).
  destruct (negb (a =? 35)%N && negb (b =? 35)%N); cbn [concat app].
  - by rewrite IH1.
  - by rewrite IH2.
Qed.

Lemma pair_up_elements text : Forall char_element (pair_up text).
Proof.
  induction text as [|a|a b rest IH1 IH2] using list_ind2.
  - constructor.
  - constructor; [|constructor]. unfold char_element.
    destruct (N.eqb_spec a 35) as [->|Ha]; [by left | right].
    split; [|by left]. by intros [?|[]].
  - change (pair_up (a :: b :: rest))
      with (if negb (a =? 35)%N && negb (b =? 35)%N
            then [a; b] :: pair_up rest
            else [a] :: pair_up (b :: rest)).
    destruct (N.eqb_spec a 35) as [->|Ha]; cbn [negb andb].
    + constructor; [by left | exact IH2].
    + destruct (N.eqb_spec b 35) as [->|Hb]; cbn [negb].
      * constructor; [|exact IH2]. right. split; [|by left].
        by intros [?|[]].
      * constructor; [|exact IH1]. right. split; [|by right].
        by intros [?|[?|[]]].
Qed.

(** X17.  For every text, the elements that [_str_to_chars] returns join
    back to the text with each space turned into [#]; each element is a
    [#] on its own, or one or two code points none of which is [#]. *)
Theorem str_to_chars_joins_back (text : str) :
  Py.join (_str_to_chars text) = Py.replace text (u8 " ") (u8 "#")
  /\ Forall char_element (_str_to_chars text).
Proof.
  unfold _str_to_chars, Py.join. split.
  - apply pair_up_join.
  - apply pair_up_elements.
Qed.

(** ** What the extractor gives *)

Lemma chars_of_pairs (f : str -> bool) (text : str) :
  (forall a b, f [a; b] = false) ->
  ~ In 35%N text ->
  length (concat (List.filter f (pair_up text))) <= 1.
Proof.
  intros Hf.
  induction text as [|a|a b rest IH1 IH2] using list_ind2; intros Hno.
  - cbn. lia.
  - cbn [pair_up List.filter]. destruct (f [a]); cbn; lia.
  - assert (Ha : (a =? 35)%N = false).
    { apply N.eqb_neq. intros ->. apply Hno. by left. }
    assert (Hb : (b =? 35)%N = false).
    { apply N.eqb_neq. intros ->. apply Hno. right. by left. }
    change (pair_up (a :: b :: rest))
      with (if negb (a =? 35)%N && negb (b =? 35)%N
            then [a; b] :: pair_up rest
            else [a] :: pair_up (b :: rest)).
    rewrite Ha, Hb. cbn [negb andb List.filter]. rewrite Hf.
    apply IH1. intros ?. apply Hno. right. by right.
Qed.

(** X18.  For every processed text, once [#] and the spaces are out of it,
    [_get_chars_only] keeps one letter at most: the code points are
    taken two by two, and no pair is a letter. *)
Theorem chars_of_joined_text (processed_text : str) :
  length (_get_chars_only (joined processed_text)) <= 1.
Proof.
  destruct (joined_no_boundary processed_text) as [Hh Hs].
  unfold _get_chars_only, _str_to_chars, Py.join.
  change (u8 " ") with [32%N]. change (u8 "#") with [35%N].
  rewrite (replace_absent _ 32%N 35%N Hs).
  apply chars_of_pairs; [|done].
  intros a b. by rewrite (proj1 (pair_not_listed a b)).
Qed.

(** ** The symbols of a skeleton *)

Lemma harakat_loop_marks chars :
  Forall (fun e : str => In e HARAKAT) (harakat_loop chars).
Proof.
  induction chars as [|c rest IH]; [constructor|].
  destruct rest as [|next more]; [constructor|].
  change (harakat_loop (c :: next :: more))
    with ((if str_in c HARAKAT then [c]
           else if str_in c ALPHABET && negb (str_eqb c hash)
                   && negb (str_in next HARAKAT)
           then
             if negb (str_in c [u8 "ى"; u8 "ا"]) then [u8 "َ"]
             else [u8 "ْ"]
           else if str_in c ALPHABET && negb (str_eqb c hash)
                   && str_in next HARAKAT
           then [next]
           else [])
          ++ harakat_loop (next :: more)).
  apply Forall_app. split; [|exact IH].
  destruct (str_in c HARAKAT) eqn:Ec.
  { constructor; [by apply str_in_spec | constructor]. }
  destruct (str_in c ALPHABET && negb (str_eqb c hash)); cbn [andb];
    [|constructor].
  destruct (str_in next HARAKAT) eqn:En; cbn [negb].
  - constructor; [by apply str_in_spec | constructor].
  - destruct (negb (str_in c [u8 "ى"; u8 "ا"]));
      (constructor; [apply str_in_spec; by vm_compute | constructor]).
Qed.

Lemma marks_of_harakat_loop chars x :
  In x (Py.join (harakat_loop chars)) -> In x (concat HARAKAT).
Proof.
  unfold Py.join. intros H. apply in_concat in H as (e & He & Hx).
  apply in_concat. exists e. split; [|done].
  pose proof (harakat_loop_marks chars) as HF.
  rewrite Forall_forall in HF. apply HF. by apply list_elem_of_In.
Qed.

(** X19.  For every text, the skeleton that [_get_rokaz_khoutayt] makes of
    the harakat of [_get_harakat_only] holds nothing but [U], [-],
    shadda and tanwin; in particular it holds no [%], the mark that
    [_get_ba7er] puts at its two ends. *)
Theorem skeleton_symbols_only (text : str) :
  let skeleton := _get_rokaz_khoutayt (_get_harakat_only text) in
  (forall c, In c skeleton -> In c skeleton_symbols)
  /\ ~ In 37%N skeleton.
Proof.
  cbv zeta.
  assert (H : forall c,
             In c (_get_rokaz_khoutayt (_get_harakat_only text)) ->
             In c skeleton_symbols).
  { intros c. rewrite rokaz_khoutayt_unfold. unfold _get_harakat_only.
    cbv zeta. change (u8 "ِ") with [1616%N]. change (u8 "ُ") with [1615%N].
    change (u8 "َ") with [fatha].
    rewrite !replace_single. intros H.
    apply in_map_iff in H as (c1 & <- & H).
    apply in_map_iff in H as (c2 & <- & H).
    apply replace_elements in H as [H|[<-|[]]]; [|by vm_compute; tauto].
    apply in_map_iff in H as (c3 & <- & H).
    apply in_map_iff in H as (c4 & <- & H).
    apply marks_of_harakat_loop in H.
    change (In (symbol_of c4) skeleton_symbols).
    assert (HA : forallb (fun m => cp_in (symbol_of m) skeleton_symbols)
                         (concat HARAKAT) = true) by (by vm_compute).
    rewrite forallb_forall in HA. apply cp_in_In, HA, H. }
  split; [exact H|].
  intros H37. apply H in H37. vm_compute in H37.
  repeat (destruct H37 as [H37|H37]; [discriminate|]). done.
Qed.

(** ** The skeletons of the meter table *)

Lemma lang_words r w : finite r = true -> Lang.lang r w -> In w (words r).
Proof.
  intros Hf Hw. induction Hw; cbn [finite] in Hf; cbn [words]; try done.
  - by left.
  - by left.
  - apply in_map_iff. by exists c.
  - apply andb_true_iff in Hf as [H1 H2].
    apply in_flat_map. exists w1. split; [auto|].
    apply in_map_iff. exists w2. auto.
  - apply andb_true_iff in Hf as [H1 _]. apply in_or_app. auto.
  - apply andb_true_iff in Hf as [_ H2]. apply in_or_app. auto.
  - auto.
Qed.

Lemma first_match_entry table s M :
  first_match table s = M -> M <> "unknown"%string ->
  exists pattern,
    In (M, pattern) table /\ Re.re_match (Re.compile pattern) s = true.
Proof.
  induction table as [|[name pattern] table IH]; cbn [first_match].
  - by intros <-.
  - destruct (Re.re_match (Re.compile pattern) s) eqn:E.
    + intros <- _. exists pattern. split; [by left | done].
    + intros HM Hn. destruct (IH HM Hn) as (p & Hin & Hp).
      exists p. split; [by right | done].
Qed.

Lemma meter_table_finite :
  forallb (fun e : string * string =>
             Lang.anchored (Re.expr (Re.compile (snd e)))
             && finite (Re.expr (Re.compile (snd e))))
          METER_PATTERNS = true.
Proof. by vm_compute. Qed.

(** A skeleton that is given a meter is one of the words of the pattern
    of that meter. *)
Lemma ba7er_skeleton (rokaz : str) :
  ~ In 37%N rokaz -> _get_ba7er rokaz <> "unknown"%string ->
  exists pattern,
    In (_get_ba7er rokaz, pattern) METER_PATTERNS
    /\ In rokaz (skeletons_of pattern).
Proof.
  intros Hno HM.
  destruct (first_match_entry METER_PATTERNS (u8 "%" ++ rokaz ++ u8 "%")
              (_get_ba7er rokaz) eq_refl HM) as (pattern & Hin & Hm).
  exists pattern. split; [done|].
  pose proof meter_table_finite as HF. rewrite forallb_forall in HF.
  specialize (HF _ Hin). cbn [snd] in HF.
  apply andb_true_iff in HF as [Ha Hf].
  apply (re_match_end_to_end rokaz Hno pattern Ha) in Hm.
  unfold matches_end_to_end in Hm. apply (lang_words _ _ Hf) in Hm.
  unfold skeletons_of. apply in_map_iff.
  exists (u8 "%" ++ rokaz ++ u8 "%"). split; [|done].
  change (u8 "%") with [37%N]. cbn [app List.tl].
  apply removelast_last.
Qed.

Lemma meter_table_bounds :
  forallb (fun e : string * string =>
             forallb (fun w => within 3 15 w
                               && forallb (fun c => cp_in c [short_U; long_dash]) w)
                     (skeletons_of (snd e)))
          METER_PATTERNS = true.
Proof. by vm_compute. Qed.

(** X20.  A skeleton without [%] to which [_get_ba7er] gives a meter has
    between 3 and 15 symbols, all of them [U] or [-]: a longer skeleton,
    such as the one of a whole verse, is always ["unknown"]. *)
Theorem recognised_skeleton_bounds (rokaz : str) :
  ~ In 37%N rokaz -> _get_ba7er rokaz <> "unknown"%string ->
  3 <= length rokaz <= 15
  /\ forall c, In c rokaz -> c = short_U \/ c = long_dash.
Proof.
  intros Hno HM. destruct (ba7er_skeleton rokaz Hno HM) as (p & Hin & Hw).
  pose proof meter_table_bounds as HB. rewrite forallb_forall in HB.
  specialize (HB _ Hin). cbn [snd] in HB.
  rewrite forallb_forall in HB. specialize (HB _ Hw).
  apply andb_true_iff in HB as [Hlen Hsym]. unfold within in Hlen.
  apply andb_true_iff in Hlen as [Hlo Hhi].
  apply Nat.leb_le in Hlo, Hhi. split; [lia|].
  intros c Hc. rewrite forallb_forall in Hsym.
  apply Hsym, cp_in_In in Hc. cbn [In] in Hc.
  destruct Hc as [<-|[<-|[]]]; auto.
Qed.

Lemma recognised_skeleton_bounds_witness :
  ~ In 37%N (u8 "U--U---U--U-U-")
  /\ _get_ba7er (u8 "U--U---U--U-U-") <> "unknown"%string
  /\ 3 <= length (u8 "U--U---U--U-U-") <= 15.
Proof.
  assert (Hno : ~ In 37%N (u8 "U--U---U--U-U-")).
  { vm_compute. intros H.
    repeat (destruct H as [H|H]; [discriminate H|]). exact H. }
  assert (HM : _get_ba7er (u8 "U--U---U--U-U-") <> "unknown"%string).
  { vm_compute. discriminate. }
  split; [exact Hno|]. split; [exact HM|].
  exact (proj1 (recognised_skeleton_bounds (u8 "U--U---U--U-U-") Hno HM)).
Defined.





(** ** The feet of a free-verse poem *)

Lemma strip_prefix_spec p : forall s rest,
  Py.strip_prefix p s = Some rest -> s = p ++ rest.
Proof.
  induction p as [|a p IH]; intros s rest; cbn [Py.strip_prefix].
  - by intros [= ->].
  - destruct s as [|b s]; [done|].
    destruct (N.eqb_spec a b) as [->|_]; [|done].
    intros H. by rewrite (IH _ _ H).
Qed.

Lemma startswith_prefix s p :
  Py.startswith s p = true -> exists rest, s = p ++ rest.
Proof.
  unfold Py.startswith. destruct (Py.strip_prefix p s) as [rest|] eqn:E;
    [|done].
  intros _. exists rest. by apply strip_prefix_spec.
Qed.

Section Feet.

Variable foot : str -> str * str * nat.
Variable chars : str.

(** The foot taken off a skeleton is a piece of it, at its head, and is
    not empty. *)
Hypothesis foot_prefix : forall c rokaz,
  exists t rest, fst (fst (foot (c :: rokaz))) = c :: t
                 /\ rokaz = t ++ rest.

Lemma feet_loop_tiles rokaz : forall skip chars_index,
  skip <= length rokaz ->
  concat (List.map (fun f => fst (fst f))
                   (feet_loop foot skip rokaz chars_index chars))
  = drop skip rokaz.
Proof using foot_prefix.
  induction rokaz as [|c rokaz IH]; intros skip i Hs; cbn [feet_loop].
  - by destruct skip.
  - destruct skip as [|n].
    + destruct (foot_prefix c rokaz) as (t & rest & Et & Er).
      destruct (foot (c :: rokaz)) as [[tafeela name] word_len].
      cbn [fst] in Et. subst tafeela rokaz.
      replace (length (c :: t) - 1) with (length t) by (cbn [length]; lia).
      cbn [List.map concat fst app drop].
      rewrite IH; [|rewrite length_app; lia].
      by rewrite drop_app_length.
    + cbn [length] in Hs. cbn [drop]. apply IH. lia.
Qed.

Lemma feet_loop_nonempty rokaz : forall skip chars_index,
  Forall (fun t : str => t <> [])
         (List.map (fun f => fst (fst f))
                   (feet_loop foot skip rokaz chars_index chars)).
Proof using foot_prefix.
  induction rokaz as [|c rokaz IH]; intros skip i; cbn [feet_loop].
  - constructor.
  - destruct skip as [|n]; [|apply IH].
    destruct (foot_prefix c rokaz) as (t & rest & Et & Er).
    destruct (foot (c :: rokaz)) as [[tafeela name] word_len].
    cbn [fst] in Et. subst tafeela.
    cbn [List.map fst]. constructor; [done | apply IH].
Qed.

End Feet.

Lemma kamel_foot_prefix c rokaz :
  exists t rest, fst (fst (kamel_foot (c :: rokaz))) = c :: t
                 /\ rokaz = t ++ rest.
Proof.
  unfold kamel_foot.
  destruct (Py.startswith (c :: rokaz) (u8 "UU-U-")) eqn:E1;
    [apply startswith_prefix in E1 as (rest & E);
     injection E as -> ->; by eexists _, rest|].
  destruct (Py.startswith (c :: rokaz) (u8 "--U-")) eqn:E2;
    [apply startswith_prefix in E2 as (rest & E);
     injection E as -> ->; by eexists _, rest|].
  by exists [], rokaz.
Qed.

Lemma rajaz_foot_prefix c rokaz :
  exists t rest, fst (fst (rajaz_foot (c :: rokaz))) = c :: t
                 /\ rokaz = t ++ rest.
Proof.
  unfold rajaz_foot.
  repeat match goal with
  | |- context [if Py.startswith ?s ?p then _ else _] =>
    let E := fresh "E" in
    destruct (Py.startswith s p) eqn:E;
      [apply startswith_prefix in E as (rest & E);
       injection E as -> ->; by eexists _, rest|]
  end.
  by exists [], rokaz.
Qed.

(** X22.  For the meters kamel and rajaz, the feet that
    [_get_tafaeel_for_tafeela_poem] returns are not empty and tile the
    skeleton: joined in order, they are the skeleton, whatever its
    symbols. *)
Theorem tafeela_feet_tile (ba7er_name : string) (rokaz chars : str) :
  ba7er_name = "kamel"%string \/ ba7er_name = "rajaz"%string ->
  exists r,
    _get_tafaeel_for_tafeela_poem ba7er_name rokaz chars = Some r
    /\ poem_ba7er r = ba7er_name
    /\ concat (poem_tafa3eel r) = rokaz
    /\ Forall (fun t => t <> []) (poem_tafa3eel r).
Proof.
  intros [-> | ->]; unfold _get_tafaeel_for_tafeela_poem;
    cbn [String.eqb Ascii.eqb Bool.eqb andb]; cbv zeta;
    eexists; (split; [reflexivity|]); cbn [poem_ba7er poem_tafa3eel];
    (split; [reflexivity|]).
  - split.
    + rewrite (feet_loop_tiles kamel_foot chars kamel_foot_prefix);
        [done | lia].
    + apply (feet_loop_nonempty kamel_foot chars kamel_foot_prefix).
  - split.
    + rewrite (feet_loop_tiles rajaz_foot chars rajaz_foot_prefix);
        [done | lia].
    + apply (feet_loop_nonempty rajaz_foot chars rajaz_foot_prefix).
Qed.

Lemma tafeela_feet_tile_witness :
  exists r,
    _get_tafaeel_for_tafeela_poem "rajaz" (u8 "--U-U-U-UU-UU-") (u8 "ابجد")
    = Some r
    /\ poem_ba7er r = "rajaz"%string
    /\ concat (poem_tafa3eel r) = u8 "--U-U-U-UU-UU-"
    /\ Forall (fun t => t <> []) (poem_tafa3eel r).
Proof.
  apply (tafeela_feet_tile "rajaz" (u8 "--U-U-U-UU-UU-") (u8 "ابجد")).
  by right.
Defined.

(** X23.  When [_what_tafeela_poem_on] names a meter other than kamel and
    rajaz, [_get_tafaeel_for_tafeela_poem] returns that name with no
    feet, no names and no words. *)
Theorem named_meter_without_feet (rokaz chars : str) :
  _what_tafeela_poem_on rokaz <> "unknown"%string ->
  _what_tafeela_poem_on rokaz <> "kamel"%string ->
  _what_tafeela_poem_on rokaz <> "rajaz"%string ->
  _get_tafaeel_for_tafeela_poem (_what_tafeela_poem_on rokaz) rokaz chars
  = Some {| poem_ba7er := _what_tafeela_poem_on rokaz;
            poem_tafa3eel := []; poem_names := []; poem_words := [] |}.
Proof.
  intros H0 H1 H2. unfold _get_tafaeel_for_tafeela_poem.
  destruct (String.eqb_spec (_what_tafeela_poem_on rokaz) "unknown"); [done|].
  destruct (String.eqb_spec (_what_tafeela_poem_on rokaz) "kamel"); [done|].
  by destruct (String.eqb_spec (_what_tafeela_poem_on rokaz) "rajaz").
Qed.

Lemma named_meter_without_feet_witness :
  _what_tafeela_poem_on (u8 "-U---U---U---U---U--") = "ramal"%string
  /\ _get_tafaeel_for_tafeela_poem
       (_what_tafeela_poem_on (u8 "-U---U---U---U---U--"))
       (u8 "-U---U---U---U---U--") (u8 "ابجد")
     = Some {| poem_ba7er := _what_tafeela_poem_on (u8 "-U---U---U---U---U--");
               poem_tafa3eel := []; poem_names := []; poem_words := [] |}.
Proof.
  assert (E : _what_tafeela_poem_on (u8 "-U---U---U---U---U--")
              = "ramal"%string) by (by vm_compute).
  split; [exact E|].
  apply (named_meter_without_feet (u8 "-U---U---U---U---U--") (u8 "ابجد"));
    rewrite E; discriminate.
Defined.

(** ** The meter of a free-verse poem *)

Lemma tafeela_base_opening r candidates :
  tafeela_base r = Some candidates -> length r = 4.
Proof.
  unfold tafeela_base.
  repeat match goal with
  | |- context [if str_eqb r ?x then _ else _] =>
    let E := fresh "E" in
    destruct (str_eqb r x) eqn:E;
      [apply str_eqb_eq in E; by rewrite E|]
  end.
  done.
Qed.

(** X24.  For a skeleton of fewer than four symbols,
    [_what_tafeela_poem_on] returns ["unknown"]. *)
Theorem short_skeleton_unknown (rokaz : str) :
  length rokaz < 4 -> _what_tafeela_poem_on rokaz = "unknown"%string.
Proof.
  intros Hlen. unfold _what_tafeela_poem_on. cbv zeta.
  destruct (tafeela_base (opening rokaz)) as [candidates|] eqn:E; [|done].
  apply tafeela_base_opening in E. unfold opening in E.
  destruct (Nat.leb_spec 4 (length rokaz)); lia.
Qed.

Lemma short_skeleton_unknown_witness :
  length (u8 "U--") < 4 /\ _what_tafeela_poem_on (u8 "U--") = "unknown"%string.
Proof.
  assert (H : length (u8 "U--") < 4) by (vm_compute; lia).
  split; [exact H | exact (short_skeleton_unknown (u8 "U--") H)].
Defined.

Lemma findall_head p c s rest g :
  Re.match_at p (c :: s) = Some (rest, g) ->
  length rest < length (c :: s) ->
  0 < length (Re.findall p (c :: s)).
Proof.
  intros Hm Hlen. unfold Re.findall. cbn [Re.findall_from]. rewrite Hm.
  destruct (length (c :: s) - length rest) eqn:E; [lia|].
  cbn [length]. lia.
Qed.

Lemma hazaj_foot_matches rest :
  exists g,
    Re.match_at (Re.compile "(U-UU-|U---)") (u8 "U---" ++ rest)
    = Some (rest, g).
Proof. eexists. vm_compute. reflexivity. Qed.

Lemma scored_prefix_opening rokaz o :
  length o = 4 -> take 4 rokaz = o ->
  opening rokaz = o /\ exists rest, scored_prefix rokaz = o ++ rest.
Proof.
  intros Ho Ht.
  assert (Hlen : 4 <= length rokaz).
  { rewrite <- Ht, length_take in Ho. lia. }
  split.
  - unfold opening. by destruct (Nat.leb_spec 4 (length rokaz)); [|lia].
  - unfold scored_prefix. destruct (21 <=? length rokaz).
    + exists (drop 4 (take 21 rokaz)).
      rewrite <- (take_drop 4 (take 21 rokaz)) at 1.
      f_equal. rewrite take_take. by rewrite Nat.min_l by lia.
    + exists (drop 4 rokaz). by rewrite <- Ht, take_drop.
Qed.

(** X25.  A skeleton that opens with [U---] is never ["unknown"] to
    [_what_tafeela_poem_on]: it is wafer when a foot [U-UU-] is among
    the matches in the scored prefix, and hazaj otherwise. *)
Theorem hazaj_opening_is_named (rokaz : str) :
  take 4 rokaz = u8 "U---" ->
  _what_tafeela_poem_on rokaz
  = if sub_match_found "(U-UU-|U---)" (scored_prefix rokaz)
    then "wafer"%string else "hazaj"%string.
Proof.
  intros Ht.
  destruct (scored_prefix_opening rokaz (u8 "U---") eq_refl Ht)
    as (Eo & rest & Es).
  unfold _what_tafeela_poem_on. cbv zeta. rewrite Eo.
  change (tafeela_base (u8 "U---"))
    with (Some [("wafer"%string, "(U-UU-|U---)"%string)]).
  cbn [score_loop]. cbv zeta.
  assert (Hs : 0 < score "(U-UU-|U---)" (scored_prefix rokaz)).
  { unfold score. rewrite Es.
    destruct (hazaj_foot_matches rest) as (g & Hg).
    change (u8 "U---" ++ rest)
      with (85%N :: 45%N :: 45%N :: 45%N :: rest) in Hg |- *.
    apply (findall_head _ _ _ rest g Hg). cbn [length]. lia. }
  apply Nat.ltb_lt in Hs. rewrite Hs.
  cbn [String.eqb Ascii.eqb Bool.eqb andb]. reflexivity.
Qed.

Lemma hazaj_opening_is_named_witness :
  take 4 (u8 "U---U-UU-U---") = u8 "U---"
  /\ _what_tafeela_poem_on (u8 "U---U-UU-U---")
     = if sub_match_found "(U-UU-|U---)" (scored_prefix (u8 "U---U-UU-U---"))
       then "wafer"%string else "hazaj"%string.
Proof.
  assert (H : take 4 (u8 "U---U-UU-U---") = u8 "U---") by reflexivity.
  split; [exact H|].
  exact (hazaj_opening_is_named (u8 "U---U-UU-U---") H).
Defined.

(** ** The cleaned text *)

Lemma endswith_suffix s p :
  Py.endswith s p = true -> exists pre, s = pre ++ p.
Proof.
  unfold Py.endswith. intros H.
  apply startswith_prefix in H as (rest & H). exists (rev rest).
  rewrite <- (rev_involutive s), H, rev_app_distr.
  by rewrite rev_involutive.
Qed.

Lemma squeeze_head cs new x s :
  cp_in x cs = false ->
  squeeze cs new false (x :: s) = x :: squeeze cs new false s.
Proof. intros H. cbn [squeeze]. by rewrite H. Qed.

Lemma punctuation_keeps_head ps : forall s,
  Forall (fun p : str => exists a, p = [a] /\ a <> 35%N) ps ->
  exists s', fold_left (fun t p => Py.replace t p []) ps (35%N :: s)
             = 35%N :: s'.
Proof.
  induction ps as [|p ps IH]; intros s Hps; cbn [fold_left].
  - by exists s.
  - inversion Hps as [|? ? (a & -> & Ha) Hps']; subst.
    rewrite replace_delete. cbn [List.filter].
    destruct (N.eqb_spec a 35) as [|_]; [done|]. cbn [negb].
    apply IH, Hps'.
Qed.

Lemma punctuations_single :
  Forall (fun p : str => exists a, p = [a] /\ a <> 35%N) punctuations.
Proof.
  apply (Forall_of_forallb
           (fun p : str => match p with
                           | [a] => negb (a =? 35)%N
                           | _ => false
                           end)); [|by vm_compute].
  intros [|a [|b p]] H; try done. exists a. split; [done|].
  intros ->. done.
Qed.

Lemma pair_up_hash_head s : exists l, pair_up (35%N :: s) = [35%N] :: l.
Proof.
  destruct s as [|b s]; [by exists []|].
  by exists (pair_up (b :: s)).
Qed.

Lemma pair_up_hash_last s : exists l, pair_up (s ++ [35%N]) = l ++ [[35%N]].
Proof.
  induction s as [|a|a b rest IH1 IH2] using list_ind2.
  - by exists [].
  - exists [[a]]. cbn [app].
    change (pair_up [a; 35%N])
      with (if negb (a =? 35)%N && negb (35 =? 35)%N
            then [a; 35%N] :: pair_up []
            else [a] :: pair_up [35%N]).
    by rewrite andb_false_r.
  - cbn [app].
    change (pair_up (a :: b :: rest ++ [35%N]))
      with (if negb (a =? 35)%N && negb (b =? 35)%N
            then [a; b] :: pair_up (rest ++ [35%N])
            else [a] :: pair_up ((b :: rest) ++ [35%N])).
    destruct (negb (a =? 35)%N && negb (b =? 35)%N).
    + destruct IH1 as (l & ->). by exists ([a; b] :: l).
    + destruct IH2 as (l & ->). by exists ([a] :: l).
Qed.

Lemma cleaned_head text :
  exists s,
    fold_left (fun t p => Py.replace t p []) punctuations
      (Re.sub (Re.compile "#+") (u8 "#")
         (Re.sub (Re.compile " +") (u8 "#")
            (if Py.startswith text hash then text else hash ++ text)))
    = 35%N :: s.
Proof.
  assert (H0 : exists s0,
             (if Py.startswith text hash then text else hash ++ text)
             = 35%N :: s0).
  { destruct (Py.startswith text hash) eqn:E; [|by exists text].
    apply startswith_prefix in E as (rest & ->). by exists rest. }
  destruct H0 as (s0 & ->).
  unfold Re.sub. rewrite compile_spaces, compile_hashes.
  rewrite (proj1 (sub_from_run [32%N] 0 (Re.template (u8 "#")) _)).
  rewrite (proj1 (sub_from_run [35%N] 0 (Re.template (u8 "#")) _)).
  rewrite (squeeze_head [32%N]) by done.
  change (squeeze [35%N] (Re.expand (Re.template (u8 "#")) []) false
            (35%N :: ?s))
    with (35%N :: squeeze [35%N] (Re.expand (Re.template (u8 "#")) []) true s).
  apply punctuation_keeps_head, punctuations_single.
Qed.

(** X26.  For every text, what [_clean_str] returns starts with [#], ends
    with [#], and each of its code points is a letter of [ALPHABET]
    or a mark of [HARAKAT]: no space and no punctuation is left. *)
Theorem clean_str_shape (text : str) :
  (exists body, _clean_str text = 35%N :: body)
  /\ (exists body, _clean_str text = body ++ [35%N])
  /\ forall c, In c (_clean_str text) -> In [c] (ALPHABET ++ HARAKAT).
Proof.
  unfold _clean_str. cbv zeta.
  destruct (cleaned_head text) as (s & Es).
  remember (fold_left (fun t p => Py.replace t p []) punctuations
              (Re.sub (Re.compile "#+") (u8 "#")
                 (Re.sub (Re.compile " +") (u8 "#")
                    (if Py.startswith text hash then text else hash ++ text))))
    as text3 eqn:E3.
  clear E3 text. unfold _str_to_chars, Py.join.
  change (u8 " ") with [32%N]. change (u8 "#") with [35%N].
  change hash with [35%N].
  rewrite replace_single.
  set (keep := fun c : str => str_in c ALPHABET || str_in c HARAKAT).
  set (to_hash := fun c : cp => if (32 =? c)%N then 35%N else c).
  assert (Hkeep : keep [35%N] = true) by (by vm_compute).
  split; [|split].
  - rewrite Es. cbn [List.map].
    change (to_hash 35%N) with 35%N.
    destruct (pair_up_hash_head (List.map to_hash s)) as (l & ->).
    cbn [List.filter]. rewrite Hkeep.
    destruct (Py.endswith (35%N :: s) [35%N]); cbn [app concat]; eauto.
  - destruct (Py.endswith text3 [35%N]) eqn:Ee.
    + apply endswith_suffix in Ee as (pre & ->).
      rewrite map_app. cbn [List.map]. change (to_hash 35%N) with 35%N.
      destruct (pair_up_hash_last (List.map to_hash pre)) as (l & ->).
      rewrite List.filter_app. cbn [List.filter]. rewrite Hkeep.
      rewrite concat_app. cbn [concat app]. eauto.
    + rewrite concat_app. cbn [concat app]. eauto.
  - intros c Hc.
    assert (Hin : exists e, In c e /\ keep e = true).
    { destruct (Py.endswith text3 [35%N]).
      - apply in_concat in Hc as (e & He & Hc'). exists e. split; [done|].
        by apply filter_In in He as [_ He].
      - apply in_concat in Hc as (e & He & Hc'). exists e. split; [done|].
        apply in_app_or in He as [He|[<-|[]]]; [|done].
        by apply filter_In in He as [_ He]. }
    destruct Hin as (e & Hc' & He). unfold keep in He.
    assert (Hl : In e (ALPHABET ++ HARAKAT)).
    { apply in_or_app. apply orb_true_iff in He as [He|He];
        apply str_in_spec in He; auto. }
    pose proof listed_are_single as Hs1. rewrite Forall_forall in Hs1.
    specialize (Hs1 e ltac:(by apply list_elem_of_In)).
    destruct e as [|x [|y e]]; try done.
    destruct Hc' as [->|[]]. exact Hl.
Qed.
